(** * cfg_template: a typed configuration-value registry

    Shallow embedding of [example.cpp] / [cfg_template.hpp]: the
    [AbstractCV] class hierarchy, the [CVFactory] that resolves overrides,
    the [ConfigTemplate] registry with its typed accessor [as_] and its
    mutator [set], and the two registries the demonstration program
    instantiates ([DatabaseConfig], [ClusterConfig]).

    Conventions of the embedding:
    - a C++ integer of type [T] is a [Z] in the range of [T]; every implicit
      or explicit integer conversion of the source is written [cast T];
    - [std::string] is [string]; [std::map] is stdpp's [gmap];
    - a call that may throw returns an [outcome]; the registry operations,
      which reach the values through the (mutable) map [mParms], pass the
      registry along explicitly and return the registry they leave behind;
    - the class hierarchy below [AbstractCV] is a closed sum with one
      constructor per subclass, the virtual methods are functions on it;
    - the embedding is sequential: the [std::atomic] cell of
      [IntUpdatableCV] is an ordinary stored integer. *)

From Stdlib Require Import ZArith String Ascii DecimalString DecimalPos Bool Lia.
From stdpp Require Import gmap strings.

Local Open Scope string_scope.
Local Open Scope Z_scope.

(** ** Integer types and conversions *)

(** The integer types the templates are instantiated at.  [int32_t] also
    stands for C++ [int], which is what [std::stoi] returns. *)
Inductive IntType : Type :=
| int8_t | int16_t | int32_t | int64_t
| uint8_t | uint16_t | uint32_t | uint64_t.

Definition bits (T : IntType) : Z :=
  match T with
  | int8_t | uint8_t => 8
  | int16_t | uint16_t => 16
  | int32_t | uint32_t => 32
  | int64_t | uint64_t => 64
  end.

Definition is_signed (T : IntType) : bool :=
  match T with
  | int8_t | int16_t | int32_t | int64_t => true
  | _ => false
  end.

Definition min_value (T : IntType) : Z :=
  if is_signed T then - 2 ^ (bits T - 1) else 0.

Definition max_value (T : IntType) : Z :=
  if is_signed T then 2 ^ (bits T - 1) - 1 else 2 ^ bits T - 1.

(** [z] is a value of type [T]. *)
Definition in_range (T : IntType) (z : Z) : Prop :=
  min_value T <= z <= max_value T.

Definition in_rangeb (T : IntType) (z : Z) : bool :=
  (min_value T <=? z) && (z <=? max_value T).

(** Conversion of an integer to the integer type [T]: the value is reduced
    modulo [2 ^ bits T] into the range of [T]. *)
Definition cast (T : IntType) (z : Z) : Z :=
  if is_signed T
  then (z + 2 ^ (bits T - 1)) mod 2 ^ bits T - 2 ^ (bits T - 1)
  else z mod 2 ^ bits T.

(** ** Exceptions and outcomes *)

Inductive exception : Type :=
| runtime_error (what : string)
| invalid_argument (what : string)
| out_of_range (what : string).

(** What a call does: it returns, it throws, or (dereferencing a null
    [shared_ptr]) it has no defined behaviour. *)
Inductive outcome (A : Type) : Type :=
| Return (a : A)
| Throw (e : exception)
| Undefined.
Arguments Return {A} a.
Arguments Throw {A} e.
Arguments Undefined {A}.

#[global] Instance outcome_ret : MRet outcome := fun A a => Return a.
#[global] Instance outcome_bind : MBind outcome := fun A B f m =>
  match m with
  | Return a => f a
  | Throw e => Throw e
  | Undefined => Undefined
  end.

(** ** Characters and strings of the C library *)

Definition code (c : ascii) : Z := Z.of_N (N_of_ascii c).

Definition islower (c : ascii) : bool := (97 <=? code c) && (code c <=? 122).
Definition isupper (c : ascii) : bool := (65 <=? code c) && (code c <=? 90).
Definition isdigit (c : ascii) : bool := (48 <=? code c) && (code c <=? 57).

(** [isspace] in the "C" locale: space, and [\t \n \v \f \r]. *)
Definition isspace (c : ascii) : bool :=
  (code c =? 32) || ((9 <=? code c) && (code c <=? 13)).

(** [::toupper] in the "C" locale (the program never calls [setlocale]). *)
Definition toupper (c : ascii) : ascii :=
  if islower c then ascii_of_N (N_of_ascii c - 32) else c.

(** [std::transform(s.begin(), s.end(), s.begin(), f)] *)
Fixpoint transform (f : ascii -> ascii) (s : string) : string :=
  match s with
  | EmptyString => EmptyString
  | String c r => String (f c) (transform f r)
  end.

(** Helper to convert a string value to a bool *)
Definition strToBool (in_ : string) : bool :=
  let upStr := transform toupper in_ in
  if (upStr =? "0")%string || (upStr =? "FALSE")%string || (upStr =? "OFF")%string
  then false
  else true.

(** [std::to_string] of an integer: its decimal numeral, with a leading
    minus sign when negative. *)
Definition to_string (z : Z) : string := NilZero.string_of_int (Z.to_int z).

(** *** [std::stoi]

    [std::stoi(str)] runs [strtol(str.c_str(), &end, 10)]: it skips leading
    white space, takes an optional sign, then the longest run of decimal
    digits; what follows is left unread.  No digit read:
    [std::invalid_argument].  Value outside [int]: [std::out_of_range]. *)

Fixpoint skip_space (s : string) : string :=
  match s with
  | String c r => if isspace c then skip_space r else s
  | EmptyString => s
  end.

Definition digit_value (c : ascii) : Z := code c - 48.

(** The value of the longest run of digits at the head of [s], read after
    the digits whose value is [acc]. *)
Fixpoint read_digits (acc : Z) (s : string) : Z :=
  match s with
  | String c r => if isdigit c then read_digits (acc * 10 + digit_value c) r else acc
  | EmptyString => acc
  end.

Definition starts_with_digit (s : string) : bool :=
  match s with
  | String c _ => isdigit c
  | EmptyString => false
  end.

(** Optional sign: [(negative, rest)]. *)
Definition read_sign (s : string) : bool * string :=
  match s with
  | String c r =>
      if (c =? "-")%char then (true, r)
      else if (c =? "+")%char then (false, r)
      else (false, s)
  | EmptyString => (false, s)
  end.

Definition stoi (str : string) : outcome Z :=
  let '(neg, body) := read_sign (skip_space str) in
  if starts_with_digit body then
    let magnitude := read_digits 0 body in
    let value := if neg then - magnitude else magnitude in
    if in_rangeb int32_t value then Return value
    else Throw (out_of_range "stoi")
  else Throw (invalid_argument "stoi").

(** ** The configuration values

    [AbstractCV] and its four subclasses.  The constructors take their
    arguments in the order of the C++ constructors: value, key, help (the
    integer ones take the template argument first). *)

Inductive AbstractCV : Type :=
| IntReadOnlyCV (T : IntType) (mVal : Z) (mKey mHelp : string)
| IntUpdatableCV (T : IntType) (mVal : Z) (mKey mHelp : string)
| BoolReadOnlyCV (mVal : bool) (mKey mHelp : string)
| StrReadOnlyCV (mVal : string) (mKey mHelp : string).

Module CV.

(** Return the string name of the config parm *)
Definition key (self : AbstractCV) : string :=
  match self with
  | IntReadOnlyCV _ _ k _ | IntUpdatableCV _ _ k _
  | BoolReadOnlyCV _ k _ | StrReadOnlyCV _ k _ => k
  end.

(** Return the help text *)
Definition help (self : AbstractCV) : string :=
  match self with
  | IntReadOnlyCV _ _ _ h | IntUpdatableCV _ _ _ h
  | BoolReadOnlyCV _ _ h | StrReadOnlyCV _ _ h => h
  end.

(** Return the value as a string *)
Definition asStr (self : AbstractCV) : string :=
  match self with
  | IntReadOnlyCV _ mVal _ _ => to_string mVal
  | IntUpdatableCV _ mVal _ _ => to_string mVal
  | BoolReadOnlyCV mVal _ _ => if mVal then "true" else "false"
  | StrReadOnlyCV mVal _ _ => mVal
  end.

(** Return the value as 64-bit int *)
Definition asInt (self : AbstractCV) : outcome Z :=
  match self with
  | IntReadOnlyCV _ mVal _ _ => Return (cast int64_t mVal)
  | IntUpdatableCV _ mVal _ _ => Return (cast int64_t mVal)
  | BoolReadOnlyCV mVal _ _ => Return (cast int64_t (if mVal then 1 else 0))
  | StrReadOnlyCV mVal _ _ => n ← stoi mVal; Return (cast int64_t n)
  end.

(** Return the value as a bool *)
Definition asBool (self : AbstractCV) : bool :=
  match self with
  | IntReadOnlyCV _ mVal _ _ => if mVal =? 0 then false else true
  | IntUpdatableCV _ mVal _ _ => if mVal =? 0 then false else true
  | BoolReadOnlyCV mVal _ _ => mVal
  | StrReadOnlyCV mVal _ _ => strToBool mVal
  end.

(** Set a new config value: the object as the call leaves it.  Only
    [IntUpdatableCV] overrides the throwing default of [AbstractCV]. *)
Definition set (self : AbstractCV) (v : string) : outcome AbstractCV :=
  match self with
  | IntUpdatableCV T _ k h =>
      n ← stoi v; Return (IntUpdatableCV T (cast T n) k h)
  | _ =>
      Throw (runtime_error
               ("Read-only config value.  Set is not supported: " ++ key self))
  end.

(** The three read-only subclasses. *)
Definition read_only (self : AbstractCV) : bool :=
  match self with
  | IntUpdatableCV _ _ _ _ => false
  | _ => true
  end.

(** The stored integer is a value of the declared integer type. *)
Definition well_typed (self : AbstractCV) : Prop :=
  match self with
  | IntReadOnlyCV T mVal _ _ | IntUpdatableCV T mVal _ _ => in_range T mVal
  | _ => True
  end.

End CV.

(** ** The factory *)

Record CVFactory : Type := { mOverrides : gmap string string }.

Module Factory.

(** Resolve the initial value for an integer config value *)
Definition resolveVal_int (self : CVFactory) (T : IntType)
  (overrideKey : string) (defValue : Z) : outcome Z :=
  match mOverrides self !! overrideKey with
  | None => Return defValue
  | Some second => n ← stoi second; Return (cast T n)
  end.

(** Resolve the initial value for an string config value *)
Definition resolveVal_str (self : CVFactory)
  (overrideKey : string) (defValue : string) : string :=
  match mOverrides self !! overrideKey with
  | None => defValue
  | Some second => second
  end.

(** Resolve the initial value for bool config value *)
Definition resolveVal_bool (self : CVFactory)
  (overrideKey : string) (defValue : bool) : bool :=
  match mOverrides self !! overrideKey with
  | None => defValue
  | Some second => strToBool second
  end.

(** Make a read-only config value internally stored as an integer *)
Definition Make_IntReadOnlyCV (self : CVFactory) (T : IntType)
  (key : string) (defVal : Z) (help : string) : outcome AbstractCV :=
  v ← resolveVal_int self T key defVal; Return (IntReadOnlyCV T v key help).

(** Make a read-only config value internally stored as a string *)
Definition Make_StrReadOnlyCV (self : CVFactory)
  (key : string) (defVal : string) (help : string) : outcome AbstractCV :=
  Return (StrReadOnlyCV (resolveVal_str self key defVal) key help).

(** Make a updatable config value internally stored as an integer *)
Definition Make_IntUpdatableCV (self : CVFactory) (T : IntType)
  (key : string) (defVal : Z) (help : string) : outcome AbstractCV :=
  v ← resolveVal_int self T key defVal; Return (IntUpdatableCV T v key help).

(** Make a read-only config value internally stored as a bool *)
Definition Make_BoolReadOnlyCV (self : CVFactory)
  (key : string) (defVal : bool) (help : string) : outcome AbstractCV :=
  Return (BoolReadOnlyCV (resolveVal_bool self key defVal) key help).

End Factory.

(** ** The registry *)

(** The type [T] of [as_<T>]: [std::string], [bool], or an integer type. *)
Inductive DestType : Type :=
| to_str
| to_bool
| to_int (T : IntType).

Definition dest (T : DestType) : Type :=
  match T with
  | to_str => string
  | to_bool => bool
  | to_int _ => Z
  end.

(** A [std::shared_ptr]: [None] is the null pointer. *)
Abbreviation shared_ptr A := (option A) (only parsing).

Module Config.
Section ConfigTemplate.
Context {TConfigEnum : Type} `{Countable TConfigEnum}.

Record ConfigTemplate : Type := {
  mFactory : CVFactory;
  mParms : gmap TConfigEnum (shared_ptr AbstractCV)
}.

(** The three overloads of [convertToType], selected by the type of the
    variable that receives the result. *)
Definition convertToType (val : AbstractCV) (T : DestType) : outcome (dest T) :=
  match T with
  | to_str => Return (CV.asStr val)
  | to_bool => Return (CV.asBool val)
  | to_int IntType => n ← CV.asInt val; Return (cast IntType n)
  end.

(** [mParms[parm]]: [std::map::operator[]] returns the mapped pointer, and
    first inserts a null one when the key is absent ([mParms] is mutable,
    so this also happens under the [const] accessor). *)
Definition index (self : ConfigTemplate) (parm : TConfigEnum)
  : shared_ptr AbstractCV * ConfigTemplate :=
  match mParms self !! parm with
  | Some p => (p, self)
  | None => (None, {| mFactory := mFactory self;
                      mParms := <[parm := None]> (mParms self) |})
  end.

(** Get a config value as a specific type *)
Definition as_ (T : DestType) (self : ConfigTemplate) (parm : TConfigEnum)
  : outcome (dest T) * ConfigTemplate :=
  let '(p, self) := index self parm in
  match p with
  | None => (Undefined, self)
  | Some val => (convertToType val T, self)
  end.

(** Set a config value.  The pointed-to object is updated in place; each
    parameter has an object of its own, so the update is an update of the
    entry of [parm]. *)
Definition set (self : ConfigTemplate) (parm : TConfigEnum) (newVal : string)
  : outcome unit * ConfigTemplate :=
  let '(p, self) := index self parm in
  match p with
  | None => (Undefined, self)
  | Some val =>
      match CV.set val newVal with
      | Return val' =>
          (Return tt, {| mFactory := mFactory self;
                         mParms := <[parm := Some val']> (mParms self) |})
      | Throw e => (Throw e, self)
      | Undefined => (Undefined, self)
      end
  end.

(** The value object held for [parm], if any. *)
Definition value_of (self : ConfigTemplate) (parm : TConfigEnum)
  : option AbstractCV :=
  mParms self !! parm ≫= id.

(** The registry after a sequence of [as_] calls, each of some type on
    some parameter. *)
Fixpoint after_gets (self : ConfigTemplate)
  (reads : list (DestType * TConfigEnum)) : ConfigTemplate :=
  match reads with
  | [] => self
  | (T, parm) :: reads => after_gets (as_ T self parm).2 reads
  end.

End ConfigTemplate.
Arguments ConfigTemplate TConfigEnum {_ _}.
End Config.

(** ** The two registries of the program *)

(** List of database config parameters. *)
Inductive DatabaseConfigParm : Type :=
| MAX_ROWS_PER_ROWGROUP
| STRIDESIZE
| SHARED_FS_TYPE
| CACHE_MEM_SZ.

#[global] Instance DatabaseConfigParm_eq_dec : EqDecision DatabaseConfigParm.
Proof. solve_decision. Defined.

#[global] Instance DatabaseConfigParm_countable : Countable DatabaseConfigParm.
Proof.
  refine (inj_countable'
    (fun p => match p with
              | MAX_ROWS_PER_ROWGROUP => 0%nat | STRIDESIZE => 1%nat
              | SHARED_FS_TYPE => 2%nat | CACHE_MEM_SZ => 3%nat end)
    (fun n => match n with
              | 0%nat => MAX_ROWS_PER_ROWGROUP | 1%nat => STRIDESIZE
              | 2%nat => SHARED_FS_TYPE | _ => CACHE_MEM_SZ end) _).
  intros []; reflexivity.
Defined.

(** [ConfigTemplate<DatabaseConfigParm>::ConfigTemplate(overrides)]: the
    factory calls of the member initialiser run in the order written, and
    the first one that throws ends the construction. *)
Definition DatabaseConfig (overrides : gmap string string)
  : outcome (Config.ConfigTemplate DatabaseConfigParm) :=
  let mFactory := {| mOverrides := overrides |} in
  p0 ← Factory.Make_IntReadOnlyCV mFactory int32_t "MAX_ROWS_PER_ROWGROUP" 10000
         "Maximum number of rows per row group.";
  p1 ← Factory.Make_IntReadOnlyCV mFactory int16_t "STRIDE_SIZE" 512
         "Maximum stride size of a table";
  p2 ← Factory.Make_StrReadOnlyCV mFactory "SHARED_FS" "alluxio"
         "The file system type";
  p3 ← Factory.Make_IntUpdatableCV mFactory int64_t "CACHE_MEM_SZ" 0
         "Memory size of cache";
  Return {| Config.mFactory := mFactory;
            Config.mParms := list_to_map
              [ (MAX_ROWS_PER_ROWGROUP, Some p0); (STRIDESIZE, Some p1);
                (SHARED_FS_TYPE, Some p2); (CACHE_MEM_SZ, Some p3) ] |}.

(** List of cluster config parameters. *)
Inductive ClusterConfigParm : Type :=
| NUM_NODES
| ZK_TIMEOUT
| QUORUM_WRITE
| INSERT_FLUSH.

#[global] Instance ClusterConfigParm_eq_dec : EqDecision ClusterConfigParm.
Proof. solve_decision. Defined.

#[global] Instance ClusterConfigParm_countable : Countable ClusterConfigParm.
Proof.
  refine (inj_countable'
    (fun p => match p with
              | NUM_NODES => 0%nat | ZK_TIMEOUT => 1%nat
              | QUORUM_WRITE => 2%nat | INSERT_FLUSH => 3%nat end)
    (fun n => match n with
              | 0%nat => NUM_NODES | 1%nat => ZK_TIMEOUT
              | 2%nat => QUORUM_WRITE | _ => INSERT_FLUSH end) _).
  intros []; reflexivity.
Defined.

Definition ClusterConfig (overrides : gmap string string)
  : outcome (Config.ConfigTemplate ClusterConfigParm) :=
  let mFactory := {| mOverrides := overrides |} in
  p0 ← Factory.Make_IntReadOnlyCV mFactory int8_t "NUM_NODES" 3
         "Number of nodes in the cluster.";
  p1 ← Factory.Make_IntReadOnlyCV mFactory int64_t "ZK_TIMEOUT" 10000
         "Zookeeper timeout in milliseconds";
  p2 ← Factory.Make_StrReadOnlyCV mFactory "QUORUM_WRITE" "true"
         "Is quorum write set";
  p3 ← Factory.Make_BoolReadOnlyCV mFactory "INSERT_FLUSH" true
         "Does each insert flush?";
  Return {| Config.mFactory := mFactory;
            Config.mParms := list_to_map
              [ (NUM_NODES, Some p0); (ZK_TIMEOUT, Some p1);
                (QUORUM_WRITE, Some p2); (INSERT_FLUSH, Some p3) ] |}.

(** ** Reference notions used to state the properties *)

(** Equality of strings ignoring the case of the letters [A]-[Z], written
    without [toupper]: two characters match when they are equal, or when
    one is an upper-case letter and the other the lower-case letter 32
    codes above it. *)
Definition same_letter (c d : ascii) : bool :=
  (isupper c && (code d =? code c + 32)) || (islower c && (code d =? code c - 32)).

Definition eq_nocase_char (c d : ascii) : bool :=
  (c =? d)%char || same_letter c d.

Fixpoint eq_nocase (s t : string) : bool :=
  match s, t with
  | EmptyString, EmptyString => true
  | String c s', String d t' => eq_nocase_char c d && eq_nocase s' t'
  | _, _ => false
  end.

Fixpoint all_chars (p : ascii -> bool) (s : string) : bool :=
  match s with
  | EmptyString => true
  | String c r => p c && all_chars p r
  end.

(** The value of a string of decimal digits, most significant first. *)
Fixpoint decimal (ds : string) : Z :=
  match ds with
  | EmptyString => 0
  | String c r => digit_value c * 10 ^ Z.of_nat (String.length r) + decimal r
  end.

Definition sign_factor (sign : string) : option Z :=
  if (sign =? "")%string then Some 1
  else if (sign =? "+")%string then Some 1
  else if (sign =? "-")%string then Some (-1)
  else None.

(** [str] begins with an integer literal of value [n]: optional white
    space, an optional sign, one or more decimal digits, and then anything
    that does not go on with a digit. *)
Definition begins_with_integer (str : string) (n : Z) : Prop :=
  exists ws sign ds rest sg,
    str = ws ++ sign ++ ds ++ rest /\
    all_chars isspace ws = true /\
    sign_factor sign = Some sg /\
    ds <> "" /\ all_chars isdigit ds = true /\
    starts_with_digit rest = false /\
    n = sg * decimal ds.

(** [str] is an integer literal: an optional sign and one or more decimal
    digits, and nothing else. *)
Definition digits (s : string) : bool :=
  negb (s =? "")%string && all_chars isdigit s.

Definition integer_literal (str : string) : bool :=
  match str with
  | String c r => if (c =? "-")%char || (c =? "+")%char then digits r else digits str
  | EmptyString => false
  end.

(** The longest prefix of [s] made of characters that satisfy [p], and
    what is left of [s] after it. *)
Fixpoint take_while (p : ascii -> bool) (s : string) : string :=
  match s with
  | String c r => if p c then String c (take_while p r) else EmptyString
  | EmptyString => EmptyString
  end.

Fixpoint drop_while (p : ascii -> bool) (s : string) : string :=
  match s with
  | String c r => if p c then drop_while p r else s
  | EmptyString => EmptyString
  end.

Definition starts_with (p : ascii -> bool) (s : string) : bool :=
  match s with
  | String c _ => p c
  | EmptyString => false
  end.

(** The integer a value object stores, when it is one of the two integer
    subclasses. *)
Definition stored_integer (cv : AbstractCV) : option Z :=
  match cv with
  | IntReadOnlyCV _ mVal _ _ | IntUpdatableCV _ mVal _ _ => Some mVal
  | _ => None
  end.

(** *** The declarative template

    One entry of the member initialiser of a registry: which factory
    operation is called, and with which name, default and help text. *)
Inductive Declaration : Type :=
| decl_IntReadOnly (T : IntType) (key : string) (defVal : Z) (help : string)
| decl_IntUpdatable (T : IntType) (key : string) (defVal : Z) (help : string)
| decl_BoolReadOnly (key : string) (defVal : bool) (help : string)
| decl_StrReadOnly (key : string) (defVal : string) (help : string).

Definition decl_key (d : Declaration) : string :=
  match d with
  | decl_IntReadOnly _ key _ _ | decl_IntUpdatable _ key _ _
  | decl_BoolReadOnly key _ _ | decl_StrReadOnly key _ _ => key
  end.

(** The factory call a declaration stands for. *)
Definition make (f : CVFactory) (d : Declaration) : outcome AbstractCV :=
  match d with
  | decl_IntReadOnly T key defVal help => Factory.Make_IntReadOnlyCV f T key defVal help
  | decl_IntUpdatable T key defVal help => Factory.Make_IntUpdatableCV f T key defVal help
  | decl_BoolReadOnly key defVal help => Factory.Make_BoolReadOnlyCV f key defVal help
  | decl_StrReadOnly key defVal help => Factory.Make_StrReadOnlyCV f key defVal help
  end.

(** The value object that holds the declared default itself. *)
Definition default_object (d : Declaration) : AbstractCV :=
  match d with
  | decl_IntReadOnly T key defVal help => IntReadOnlyCV T defVal key help
  | decl_IntUpdatable T key defVal help => IntUpdatableCV T defVal key help
  | decl_BoolReadOnly key defVal help => BoolReadOnlyCV defVal key help
  | decl_StrReadOnly key defVal help => StrReadOnlyCV defVal key help
  end.

(** The value object that holds the override [text], parsed for the
    storage kind of the declaration: [stoi] and a conversion to the integer
    type, the boolean text rule, or the text as it is. *)
Definition override_object (d : Declaration) (text : string) : outcome AbstractCV :=
  match d with
  | decl_IntReadOnly T key _ help =>
      match stoi text with
      | Return n => Return (IntReadOnlyCV T (cast T n) key help)
      | Throw e => Throw e
      | Undefined => Undefined
      end
  | decl_IntUpdatable T key _ help =>
      match stoi text with
      | Return n => Return (IntUpdatableCV T (cast T n) key help)
      | Throw e => Throw e
      | Undefined => Undefined
      end
  | decl_BoolReadOnly key _ help => Return (BoolReadOnlyCV (strToBool text) key help)
  | decl_StrReadOnly key _ help => Return (StrReadOnlyCV text key help)
  end.

(** A declared default coerced to the requested type: the text, boolean
    and integer projections of the default, the integer one truncated to
    the requested integer type. *)
Definition coerced_default (d : Declaration) (T : DestType) : outcome (dest T) :=
  match d, T return outcome (dest T) with
  | (decl_IntReadOnly _ _ z _ | decl_IntUpdatable _ _ z _), to_str => Return (to_string z)
  | (decl_IntReadOnly _ _ z _ | decl_IntUpdatable _ _ z _), to_bool => Return (negb (z =? 0))
  | (decl_IntReadOnly _ _ z _ | decl_IntUpdatable _ _ z _), to_int U => Return (cast U z)
  | decl_BoolReadOnly _ b _, to_str => Return (if b then "true" else "false")
  | decl_BoolReadOnly _ b _, to_bool => Return b
  | decl_BoolReadOnly _ b _, to_int U => Return (cast U (if b then 1 else 0))
  | decl_StrReadOnly _ s _, to_str => Return s
  | decl_StrReadOnly _ s _, to_bool => Return (strToBool s)
  | decl_StrReadOnly _ s _, to_int U =>
      match stoi s with
      | Return n => Return (cast U n)
      | Throw e => Throw e
      | Undefined => Undefined
      end
  end.

(** The declarations of the two registries, read off their constructors. *)
Definition DatabaseConfig_template (parm : DatabaseConfigParm) : Declaration :=
  match parm with
  | MAX_ROWS_PER_ROWGROUP =>
      decl_IntReadOnly int32_t "MAX_ROWS_PER_ROWGROUP" 10000
        "Maximum number of rows per row group."
  | STRIDESIZE =>
      decl_IntReadOnly int16_t "STRIDE_SIZE" 512 "Maximum stride size of a table"
  | SHARED_FS_TYPE =>
      decl_StrReadOnly "SHARED_FS" "alluxio" "The file system type"
  | CACHE_MEM_SZ =>
      decl_IntUpdatable int64_t "CACHE_MEM_SZ" 0 "Memory size of cache"
  end.

Definition ClusterConfig_template (parm : ClusterConfigParm) : Declaration :=
  match parm with
  | NUM_NODES =>
      decl_IntReadOnly int8_t "NUM_NODES" 3 "Number of nodes in the cluster."
  | ZK_TIMEOUT =>
      decl_IntReadOnly int64_t "ZK_TIMEOUT" 10000 "Zookeeper timeout in milliseconds"
  | QUORUM_WRITE =>
      decl_StrReadOnly "QUORUM_WRITE" "true" "Is quorum write set"
  | INSERT_FLUSH =>
      decl_BoolReadOnly "INSERT_FLUSH" true "Does each insert flush?"
  end.

(** *** Sequences of operations and invariants of a registry *)

(** Which subclass a value object belongs to, with its integer type. *)
Inductive Kind : Type :=
| kind_IntReadOnly (T : IntType)
| kind_IntUpdatable (T : IntType)
| kind_BoolReadOnly
| kind_StrReadOnly.

Definition kind_of (cv : AbstractCV) : Kind :=
  match cv with
  | IntReadOnlyCV T _ _ _ => kind_IntReadOnly T
  | IntUpdatableCV T _ _ _ => kind_IntUpdatable T
  | BoolReadOnlyCV _ _ _ => kind_BoolReadOnly
  | StrReadOnlyCV _ _ _ => kind_StrReadOnly
  end.

Definition kind_of_declaration (d : Declaration) : Kind :=
  match d with
  | decl_IntReadOnly T _ _ _ => kind_IntReadOnly T
  | decl_IntUpdatable T _ _ _ => kind_IntUpdatable T
  | decl_BoolReadOnly _ _ _ => kind_BoolReadOnly
  | decl_StrReadOnly _ _ _ => kind_StrReadOnly
  end.

Definition decl_help (d : Declaration) : string :=
  match d with
  | decl_IntReadOnly _ _ _ help | decl_IntUpdatable _ _ _ help
  | decl_BoolReadOnly _ _ help | decl_StrReadOnly _ _ help => help
  end.

(** The declaration stores an integer, so that an override of it goes
    through [std::stoi]. *)
Definition integer_declaration (d : Declaration) : bool :=
  match d with
  | decl_IntReadOnly _ _ _ _ | decl_IntUpdatable _ _ _ _ => true
  | _ => false
  end.

(** Every value of [T] is a value of [U]. *)
Definition holds_all_of (U T : IntType) : bool :=
  (min_value U <=? min_value T) && (max_value T <=? max_value U).

Section Operations.
Context {TConfigEnum : Type} `{Countable TConfigEnum}.

(** One call on a registry. *)
Inductive Operation : Type :=
| op_get (T : DestType) (parm : TConfigEnum)
| op_set (parm : TConfigEnum) (newVal : string).

(** The registry after a sequence of calls, made one after the other by a
    caller that catches what they throw. *)
Fixpoint after_operations (self : Config.ConfigTemplate TConfigEnum)
  (ops : list Operation) : Config.ConfigTemplate TConfigEnum :=
  match ops with
  | [] => self
  | op_get T parm :: ops => after_operations (Config.as_ T self parm).2 ops
  | op_set parm newVal :: ops => after_operations (Config.set self parm newVal).2 ops
  end.

(** Every key has a value object: no lookup meets a null pointer. *)
Definition fully_declared (self : Config.ConfigTemplate TConfigEnum) : Prop :=
  forall parm, exists cv, Config.mParms self !! parm = Some (Some cv).

(** Every stored integer is a value of the integer type it is stored in. *)
Definition registry_well_typed (self : Config.ConfigTemplate TConfigEnum) : Prop :=
  forall parm cv, Config.value_of self parm = Some cv -> CV.well_typed cv.

(** The map a construction leaves, or what it threw. *)
Definition parameters (made : outcome (Config.ConfigTemplate TConfigEnum))
  : outcome (gmap TConfigEnum (option AbstractCV)) :=
  cfg ← made; Return (Config.mParms cfg).

End Operations.

(** * Properties *)

(** ** Integer conversions *)

Section Cast.
Variable T : IntType.

Lemma bits_pos : 0 < bits T.
Proof. destruct T; reflexivity. Qed.

Lemma two_p_bits : 2 ^ bits T = 2 * 2 ^ (bits T - 1).
Proof. destruct T; reflexivity. Qed.

(** A conversion differs from its argument by a multiple of [2 ^ bits T]. *)
Lemma cast_congruent (z : Z) : exists q, cast T z = z + q * 2 ^ bits T.
Proof.
  unfold cast. destruct (is_signed T).
  - exists (- ((z + 2 ^ (bits T - 1)) / 2 ^ bits T)).
    pose proof (Z.div_mod (z + 2 ^ (bits T - 1)) (2 ^ bits T)) as E.
    assert (2 ^ bits T <> 0) by (pose proof bits_pos; apply Z.pow_nonzero; lia).
    specialize (E ltac:(assumption)). lia.
  - exists (- (z / 2 ^ bits T)).
    pose proof (Z.div_mod z (2 ^ bits T)) as E.
    assert (2 ^ bits T <> 0) by (pose proof bits_pos; apply Z.pow_nonzero; lia).
    specialize (E ltac:(assumption)). lia.
Qed.

(** The result of a conversion is a value of the destination type. *)
Lemma cast_in_range (z : Z) : in_range T (cast T z).
Proof.
  unfold in_range, min_value, max_value, cast.
  assert (0 < 2 ^ bits T) by (apply Z.pow_pos_nonneg; pose proof bits_pos; lia).
  destruct (is_signed T).
  - pose proof (Z.mod_pos_bound (z + 2 ^ (bits T - 1)) (2 ^ bits T) ltac:(lia)).
    pose proof two_p_bits. lia.
  - pose proof (Z.mod_pos_bound z (2 ^ bits T) ltac:(lia)). lia.
Qed.

(** A value of the destination type is converted to itself. *)
Lemma cast_id (z : Z) : in_range T z -> cast T z = z.
Proof.
  unfold in_range, min_value, max_value, cast.
  pose proof two_p_bits.
  destruct (is_signed T); intros R.
  - rewrite Z.mod_small by lia. lia.
  - rewrite Z.mod_small by lia. lia.
Qed.

(** Integers that agree modulo [2 ^ bits T] are converted to the same value. *)
Lemma cast_plus_multiple (z q : Z) : cast T (z + q * 2 ^ bits T) = cast T z.
Proof.
  unfold cast. destruct (is_signed T).
  - replace (z + q * 2 ^ bits T + 2 ^ (bits T - 1))
      with (z + 2 ^ (bits T - 1) + q * 2 ^ bits T) by ring.
    now rewrite Z.mod_add by (pose proof bits_pos; apply Z.pow_nonzero; lia).
  - now rewrite Z.mod_add by (pose proof bits_pos; apply Z.pow_nonzero; lia).
Qed.

(** Two's-complement truncation: the conversion keeps the low [bits T]
    bits of its argument. *)
Lemma cast_testbit (z i : Z) :
  0 <= i < bits T -> Z.testbit (cast T z) i = Z.testbit z i.
Proof.
  intros Hi. destruct (cast_congruent z) as [q ->].
  rewrite <- (Z.mod_pow2_bits_low (z + q * 2 ^ bits T) (bits T) i) by lia.
  rewrite Z.mod_add by (pose proof bits_pos; apply Z.pow_nonzero; lia).
  apply Z.mod_pow2_bits_low; lia.
Qed.

Lemma cast_mod (z : Z) : cast T z mod 2 ^ bits T = z mod 2 ^ bits T.
Proof.
  destruct (cast_congruent z) as [q ->].
  apply Z.mod_add. pose proof bits_pos. apply Z.pow_nonzero; lia.
Qed.

End Cast.

(** Going through a 64-bit integer on the way to [U] loses nothing that
    the conversion to [U] keeps. *)
Lemma cast_via_int64 (U : IntType) (z : Z) : cast U (cast int64_t z) = cast U z.
Proof.
  destruct (cast_congruent int64_t z) as [q ->].
  replace (q * 2 ^ bits int64_t) with (q * 2 ^ (64 - bits U) * 2 ^ bits U).
  - apply cast_plus_multiple.
  - rewrite <- Z.mul_assoc, <- Z.pow_add_r by (destruct U; simpl; lia).
    f_equal. f_equal. destruct U; reflexivity.
Qed.

Lemma in_rangeb_spec (T : IntType) (z : Z) : in_rangeb T z = true <-> in_range T z.
Proof. unfold in_rangeb, in_range. rewrite andb_true_iff, !Z.leb_le. tauto. Qed.

Lemma in_range_int64 (T : IntType) (z : Z) :
  T <> uint64_t -> in_range T z -> in_range int64_t z.
Proof.
  unfold in_range, min_value, max_value.
  destruct T; simpl; intros NE R; try congruence; lia.
Qed.
(** ** Characters *)

Lemma code_bound (c : ascii) : 0 <= code c < 256.
Proof. unfold code. pose proof (N_ascii_bounded c). lia. Qed.

Lemma code_inj (c d : ascii) : code c = code d -> c = d.
Proof.
  unfold code. intros E. apply N2Z.inj in E.
  rewrite <- (ascii_N_embedding c), <- (ascii_N_embedding d). now f_equal.
Qed.

Lemma code_toupper (c : ascii) :
  code (toupper c) = if islower c then code c - 32 else code c.
Proof.
  unfold toupper. destruct (islower c) eqn:L; [|reflexivity].
  unfold islower in L. apply andb_true_iff in L. rewrite !Z.leb_le in L.
  unfold code in *. pose proof (N_ascii_bounded c).
  rewrite N_ascii_embedding by lia. lia.
Qed.

Lemma ascii_eqb_code (c d : ascii) : (c =? d)%char = (code c =? code d).
Proof.
  destruct (Ascii.eqb_spec c d) as [->|NE].
  - symmetry. apply Z.eqb_refl.
  - symmetry. apply Z.eqb_neq. intros E. now apply NE, code_inj.
Qed.

(** Against a character that is not a lower-case letter, comparing after
    [toupper] is comparing without regard to case. *)
Lemma toupper_eqb (c d : ascii) :
  islower d = false -> (toupper c =? d)%char = eq_nocase_char c d.
Proof.
  intros Ld. unfold eq_nocase_char, same_letter.
  rewrite !ascii_eqb_code, code_toupper.
  unfold islower, isupper in *.
  pose proof (code_bound c). pose proof (code_bound d).
  destruct (97 <=? code c) eqn:E1, (code c <=? 122) eqn:E2,
           (65 <=? code c) eqn:E3, (code c <=? 90) eqn:E4,
           (97 <=? code d) eqn:E5, (code d <=? 122) eqn:E6;
    simpl in *; try discriminate;
    rewrite ?Z.leb_le, ?Z.leb_gt in *;
    repeat match goal with
           | |- context [?a =? ?b] =>
               destruct (Z.eqb_spec a b); simpl
           end; try reflexivity; lia.
Qed.

Lemma transform_toupper_eqb (t s : string) :
  all_chars (fun d => negb (islower d)) t = true ->
  (transform toupper s =? t)%string = eq_nocase s t.
Proof.
  revert s. induction t as [|d t IH]; intros [|c s] Ht; simpl; try reflexivity.
  simpl in Ht. apply andb_true_iff in Ht as [Hd Ht].
  apply negb_true_iff in Hd.
  rewrite toupper_eqb by assumption.
  destruct (eq_nocase_char c d); simpl; [now apply IH | reflexivity].
Qed.

(** [strToBool] is the case-insensitive rule: false on "0", "FALSE" and
    "OFF" whatever the case of their letters, true on every other string. *)
Lemma strToBool_spec (s : string) :
  strToBool s = negb (eq_nocase s "0" || eq_nocase s "FALSE" || eq_nocase s "OFF").
Proof.
  unfold strToBool.
  rewrite !transform_toupper_eqb by reflexivity.
  now destruct (eq_nocase s "0" || eq_nocase s "FALSE" || eq_nocase s "OFF").
Qed.

(** ** [std::stoi] reads the integer a string begins with *)

Lemma append_String (c : ascii) (a b : string) : String c a ++ b = String c (a ++ b).
Proof. reflexivity. Qed.

Lemma append_empty (b : string) : "" ++ b = b.
Proof. reflexivity. Qed.

Section Spans.
Variable p : ascii -> bool.

Lemma take_drop_while (s : string) : s = take_while p s ++ drop_while p s.
Proof.
  induction s as [|c r IH]; simpl; [reflexivity|].
  destruct (p c); rewrite ?append_String, ?append_empty; [rewrite <- IH|]; reflexivity.
Qed.

Lemma all_chars_take_while (s : string) : all_chars p (take_while p s) = true.
Proof.
  induction s as [|c r IH]; simpl; [reflexivity|].
  destruct (p c) eqn:E; simpl; [now rewrite E | reflexivity].
Qed.

Lemma starts_with_drop_while (s : string) : starts_with p (drop_while p s) = false.
Proof.
  induction s as [|c r IH]; simpl; [reflexivity|].
  destruct (p c) eqn:E; simpl; assumption.
Qed.

Lemma drop_while_app (u s : string) :
  all_chars p u = true -> starts_with p s = false -> drop_while p (u ++ s) = s.
Proof.
  intros Hu Hs. induction u as [|c r IH]; simpl in Hu.
  - rewrite append_empty.
    destruct s as [|d t]; simpl in *; [reflexivity | now rewrite Hs].
  - apply andb_true_iff in Hu as [Hc Hr].
    rewrite append_String. simpl. rewrite Hc. now apply IH.
Qed.

End Spans.

Lemma skip_space_drop_while (s : string) : skip_space s = drop_while isspace s.
Proof.
  induction s as [|c r IH]; simpl; [reflexivity|]. now destruct (isspace c).
Qed.

Lemma starts_with_digit_eq (s : string) : starts_with_digit s = starts_with isdigit s.
Proof. reflexivity. Qed.

Lemma read_digits_app (ds rest : string) (acc : Z) :
  all_chars isdigit ds = true -> starts_with_digit rest = false ->
  read_digits acc (ds ++ rest) = acc * 10 ^ Z.of_nat (String.length ds) + decimal ds.
Proof.
  intros Hds Hrest. revert acc.
  induction ds as [|c r IH]; intros acc; simpl in Hds.
  - rewrite append_empty.
    destruct rest as [|d t]; simpl in *; [lia | rewrite Hrest; lia].
  - apply andb_true_iff in Hds as [Hc Hr].
    rewrite append_String. cbn [read_digits]. rewrite Hc.
    rewrite IH by assumption.
    cbn [decimal String.length]. rewrite Nat2Z.inj_succ, Z.pow_succ_r by lia. ring.
Qed.

Lemma isdigit_not_space (c : ascii) : isdigit c = true -> isspace c = false.
Proof.
  unfold isdigit, isspace. rewrite andb_true_iff, !Z.leb_le. intros [? ?].
  apply orb_false_iff. split; [apply Z.eqb_neq; lia|].
  apply andb_false_iff. right. apply Z.leb_gt. lia.
Qed.

Lemma isdigit_not_sign (c : ascii) :
  isdigit c = true -> (c =? "-")%char = false /\ (c =? "+")%char = false.
Proof.
  unfold isdigit. rewrite andb_true_iff, !Z.leb_le. intros [? ?].
  rewrite !ascii_eqb_code. change (code "-") with 45. change (code "+") with 43.
  split; apply Z.eqb_neq; lia.
Qed.

Lemma sign_factor_cases (sign : string) (sg : Z) :
  sign_factor sign = Some sg ->
  (sign = "" /\ sg = 1) \/ (sign = "+" /\ sg = 1) \/ (sign = "-" /\ sg = -1).
Proof.
  unfold sign_factor.
  destruct (String.eqb_spec sign "") as [->|_]; [intros [= <-]; auto|].
  destruct (String.eqb_spec sign "+") as [->|_]; [intros [= <-]; auto|].
  destruct (String.eqb_spec sign "-") as [->|_]; [intros [= <-]; auto|].
  discriminate.
Qed.

(** What [stoi] does on a string that begins with an integer: the integer
    when it is an [int], [std::out_of_range] when it is not; the text after
    the digits plays no part. *)
Lemma stoi_begins (str : string) (n : Z) :
  begins_with_integer str n ->
  stoi str = if in_rangeb int32_t n then Return n else Throw (out_of_range "stoi").
Proof.
  intros (ws & sign & ds & rest & sg & -> & Hws & Hsg & Hne & Hds & Hrest & ->).
  destruct ds as [|c r]; [congruence|]. simpl in Hds.
  apply andb_true_iff in Hds as [Hc Hr].
  destruct (isdigit_not_sign c Hc) as [Hm Hp].
  assert (Hbody : read_digits 0 (String c r ++ rest) = decimal (String c r)).
  { rewrite read_digits_app; simpl; rewrite ?Hc; auto. }
  clear Hne.
  unfold stoi. rewrite skip_space_drop_while.
  destruct (sign_factor_cases _ _ Hsg) as [[-> ->]|[[-> ->]|[-> ->]]].
  - rewrite drop_while_app
      by (rewrite ?append_empty, ?append_String; simpl; auto using isdigit_not_space).
    rewrite append_empty, append_String. cbn [read_sign]. rewrite Hm, Hp.
    cbn [starts_with_digit]. rewrite Hc.
    rewrite <- append_String, Hbody. now rewrite Z.mul_1_l.
  - rewrite drop_while_app by (rewrite ?append_String; simpl; auto).
    rewrite (append_String "+"), append_empty. cbn [read_sign].
    change ("+" =? "-")%char with false. change ("+" =? "+")%char with true.
    cbn iota. rewrite append_String. cbn [starts_with_digit]. rewrite Hc.
    rewrite <- append_String, Hbody. now rewrite Z.mul_1_l.
  - rewrite drop_while_app by (rewrite ?append_String; simpl; auto).
    rewrite (append_String "-"), append_empty. cbn [read_sign].
    change ("-" =? "-")%char with true.
    cbn iota. rewrite append_String. cbn [starts_with_digit]. rewrite Hc.
    rewrite <- append_String, Hbody.
    now replace (-1 * decimal (String c r)) with (- decimal (String c r)) by ring.
Qed.

Lemma digits_split (body : string) :
  starts_with_digit body = true ->
  exists ds rest, body = ds ++ rest /\ ds <> "" /\
    all_chars isdigit ds = true /\ starts_with_digit rest = false.
Proof.
  intros Hd. exists (take_while isdigit body), (drop_while isdigit body).
  split; [apply take_drop_while|]. split.
  - destruct body as [|c r]; simpl in *; [discriminate|]. now rewrite Hd.
  - split; [apply all_chars_take_while|].
    rewrite starts_with_digit_eq. apply starts_with_drop_while.
Qed.

(** Either the string begins with an integer, or [stoi] finds no digit to
    read and throws [std::invalid_argument]. *)
Lemma stoi_cases (str : string) :
  (exists n, begins_with_integer str n) \/ stoi str = Throw (invalid_argument "stoi").
Proof.
  unfold stoi.
  pose proof (take_drop_while isspace str) as Hsplit.
  pose proof (all_chars_take_while isspace str) as Hws.
  rewrite skip_space_drop_while.
  set (ws := take_while isspace str) in *.
  set (s1 := drop_while isspace str) in *.
  assert (Hbuild : forall sign sg body,
    s1 = sign ++ body -> sign_factor sign = Some sg ->
    starts_with_digit body = true -> exists n, begins_with_integer str n).
  { intros sign sg body E Hsg Hd.
    destruct (digits_split body Hd) as (ds & rest & -> & Hne & Hds & Hrest).
    exists (sg * decimal ds), ws, sign, ds, rest, sg.
    rewrite <- E. auto 10. }
  destruct s1 as [|c r] eqn:Es1; cbn [read_sign starts_with_digit]; [now right|].
  destruct (Ascii.eqb_spec c "-") as [->|_].
  { destruct (starts_with_digit r) eqn:Hd; [left | now right].
    apply (Hbuild "-" (-1) r); auto. }
  destruct (Ascii.eqb_spec c "+") as [->|_].
  { destruct (starts_with_digit r) eqn:Hd; [left | now right].
    apply (Hbuild "+" 1 r); auto. }
  destruct (starts_with_digit (String c r)) eqn:Hd; [left | now right].
  apply (Hbuild "" 1 (String c r)); auto.
Qed.

Lemma stoi_Return_iff (str : string) (n : Z) :
  stoi str = Return n <-> begins_with_integer str n /\ in_range int32_t n.
Proof.
  split.
  - intros E. destruct (stoi_cases str) as [[m Hm]|Hinv]; [|congruence].
    pose proof (stoi_begins str m Hm) as E'. rewrite E in E'.
    destruct (in_rangeb int32_t m) eqn:R; [|discriminate].
    injection E' as ->. split; [assumption | now apply in_rangeb_spec].
  - intros [Hb R]. rewrite (stoi_begins str n Hb).
    apply in_rangeb_spec in R. now rewrite R.
Qed.

Lemma stoi_Throw_iff (str : string) :
  (exists e, stoi str = Throw e) <->
  ~ exists n, begins_with_integer str n /\ in_range int32_t n.
Proof.
  split.
  - intros [e E] (n & Hn). apply stoi_Return_iff in Hn. congruence.
  - intros No. destruct (stoi_cases str) as [[m Hm]|Hinv]; [|eauto].
    rewrite (stoi_begins str m Hm).
    destruct (in_rangeb int32_t m) eqn:R; [|eauto].
    exfalso. apply No. exists m. split; [assumption | now apply in_rangeb_spec].
Qed.

Lemma stoi_defined (str : string) : stoi str <> Undefined.
Proof.
  unfold stoi. destruct (read_sign (skip_space str)) as [neg body].
  destruct (starts_with_digit body); [|discriminate].
  destruct (in_rangeb int32_t _); discriminate.
Qed.

(** An integer literal is a string that begins with an integer and ends
    with its last digit. *)
Lemma integer_literal_begins (str : string) :
  integer_literal str = true -> exists n, begins_with_integer str n.
Proof.
  assert (Hbuild : forall sign sg body,
    str = sign ++ body -> sign_factor sign = Some sg ->
    digits body = true -> exists n, begins_with_integer str n).
  { intros sign sg body -> Hsg Hd.
    apply andb_true_iff in Hd as [Hb Hd]. apply negb_true_iff in Hb.
    exists (sg * decimal body), "", sign, body, "", sg.
    rewrite append_empty.
    replace (body ++ "") with body
      by (clear; induction body as [|c r IH];
          [reflexivity | rewrite append_String, <- IH; reflexivity]).
    repeat split; auto.
    intros ->. discriminate. }
  destruct str as [|c r]; cbn [integer_literal]; [discriminate|].
  destruct (Ascii.eqb_spec c "-") as [->|_]; [now apply (Hbuild "-" (-1) r)|].
  destruct (Ascii.eqb_spec c "+") as [->|_]; [now apply (Hbuild "+" 1 r)|].
  now apply (Hbuild "" 1 (String c r)).
Qed.

(** ** The registry operations on a declared parameter *)

Section Registry.
Context {TConfigEnum : Type} `{Countable TConfigEnum}.
Implicit Types (self : Config.ConfigTemplate TConfigEnum) (parm : TConfigEnum).

Lemma index_present self parm (p : shared_ptr AbstractCV) :
  Config.mParms self !! parm = Some p -> Config.index self parm = (p, self).
Proof. intros E. unfold Config.index. now rewrite E. Qed.

Lemma as_declared self parm (cv : AbstractCV) (T : DestType) :
  Config.mParms self !! parm = Some (Some cv) ->
  Config.as_ T self parm = (Config.convertToType cv T, self).
Proof. intros E. unfold Config.as_. now rewrite (index_present _ _ _ E). Qed.

Lemma set_declared self parm (cv : AbstractCV) (newVal : string) :
  Config.mParms self !! parm = Some (Some cv) ->
  Config.set self parm newVal =
    match CV.set cv newVal with
    | Return cv' =>
        (Return tt, {| Config.mFactory := Config.mFactory self;
                       Config.mParms := <[parm := Some cv']> (Config.mParms self) |})
    | Throw e => (Throw e, self)
    | Undefined => (Undefined, self)
    end.
Proof. intros E. unfold Config.set. now rewrite (index_present _ _ _ E). Qed.

(** Reading never touches a value object, declared parameter or not: all
    [operator[]] can do is add a null pointer for a key that had none. *)
Lemma as_value_of self parm (T : DestType) (parm' : TConfigEnum) :
  Config.value_of (Config.as_ T self parm).2 parm' = Config.value_of self parm'.
Proof.
  unfold Config.as_, Config.index, Config.value_of.
  destruct (Config.mParms self !! parm) as [[cv|]|] eqn:E; simpl; try reflexivity.
  destruct (decide (parm = parm')) as [<-|NE].
  - now rewrite lookup_insert_eq, E.
  - now rewrite lookup_insert_ne.
Qed.

(** On a registry that has a value object for every key, reads change
    nothing, however many are made. *)
Lemma after_gets_declared self (reads : list (DestType * TConfigEnum)) :
  (forall parm, exists cv, Config.mParms self !! parm = Some (Some cv)) ->
  Config.after_gets self reads = self.
Proof.
  intros D. induction reads as [|[T parm] reads IH]; [reflexivity|].
  cbn [Config.after_gets]. destruct (D parm) as [cv E].
  rewrite (as_declared _ _ _ T E). exact IH.
Qed.

End Registry.

Lemma set_read_only (cv : AbstractCV) (v : string) :
  CV.read_only cv = true ->
  CV.set cv v =
    Throw (runtime_error ("Read-only config value.  Set is not supported: " ++ CV.key cv)).
Proof. destruct cv; simpl; intros R; (reflexivity || discriminate). Qed.

(** Construction and [set] keep every stored integer within its declared
    type. *)
Lemma set_well_typed (cv cv' : AbstractCV) (v : string) :
  CV.set cv v = Return cv' -> CV.well_typed cv'.
Proof.
  destruct cv; simpl; try discriminate.
  destruct (stoi v); simpl; try discriminate.
  intros [= <-]. apply cast_in_range.
Qed.

Lemma make_well_typed (f : CVFactory) (d : Declaration) (cv : AbstractCV) :
  CV.well_typed (default_object d) -> make f d = Return cv -> CV.well_typed cv.
Proof.
  destruct d; cbn [make default_object CV.well_typed];
    unfold Factory.Make_IntReadOnlyCV, Factory.Make_IntUpdatableCV,
      Factory.Make_BoolReadOnlyCV, Factory.Make_StrReadOnlyCV,
      Factory.resolveVal_int;
    intros W; try (intros [= <-]; exact I).
  - destruct (mOverrides f !! key) as [text|]; [destruct (stoi text)|];
      simpl; try discriminate; intros [= <-]; simpl;
      [apply cast_in_range | exact W].
  - destruct (mOverrides f !! key) as [text|]; [destruct (stoi text)|];
      simpl; try discriminate; intros [= <-]; simpl;
      [apply cast_in_range | exact W].
Qed.

(** The defaults the two constructors pass are values of the declared
    integer types. *)
Lemma template_defaults_well_typed :
  (forall parm, CV.well_typed (default_object (DatabaseConfig_template parm)))
  /\ (forall parm, CV.well_typed (default_object (ClusterConfig_template parm))).
Proof.
  split; intros []; simpl; try exact I; apply in_rangeb_spec; reflexivity.
Qed.

Lemma asBool_int (z : Z) : (if z =? 0 then false else true) = negb (z =? 0).
Proof. now destruct (z =? 0). Qed.

(** What the three kinds of [get] return on an integer value object. *)
Lemma convert_updatable (T : IntType) (z : Z) (key help : string) :
  Config.convertToType (IntUpdatableCV T z key help) to_str = Return (to_string z)
  /\ Config.convertToType (IntUpdatableCV T z key help) to_bool = Return (negb (z =? 0))
  /\ forall U, Config.convertToType (IntUpdatableCV T z key help) (to_int U)
               = Return (cast U z).
Proof.
  split; [reflexivity|]. split.
  - cbn [Config.convertToType CV.asBool]. now rewrite asBool_int.
  - intros U. change (Return (cast U (cast int64_t z)) = Return (cast U z)).
    now rewrite cast_via_int64.
Qed.

(** ** The registries hold what the factory made of their declarations *)

Lemma DatabaseConfig_entries (overrides : gmap string string)
  (cfg : Config.ConfigTemplate DatabaseConfigParm) :
  DatabaseConfig overrides = Return cfg ->
  forall parm, exists cv,
    make {| mOverrides := overrides |} (DatabaseConfig_template parm) = Return cv
    /\ Config.mParms cfg !! parm = Some (Some cv).
Proof.
  unfold DatabaseConfig.
  destruct (Factory.Make_IntReadOnlyCV _ int32_t _ _ _) as [p0| |] eqn:E0;
    try discriminate.
  destruct (Factory.Make_IntReadOnlyCV _ int16_t _ _ _) as [p1| |] eqn:E1;
    try discriminate.
  destruct (Factory.Make_IntUpdatableCV _ int64_t _ _ _) as [p3| |] eqn:E3;
    try discriminate.
  intros [= <-] parm.
  destruct parm; eexists; (split; [cbn [make DatabaseConfig_template]; eassumption || reflexivity | reflexivity]).
Qed.

Lemma ClusterConfig_entries (overrides : gmap string string)
  (cfg : Config.ConfigTemplate ClusterConfigParm) :
  ClusterConfig overrides = Return cfg ->
  forall parm, exists cv,
    make {| mOverrides := overrides |} (ClusterConfig_template parm) = Return cv
    /\ Config.mParms cfg !! parm = Some (Some cv).
Proof.
  unfold ClusterConfig.
  destruct (Factory.Make_IntReadOnlyCV _ int8_t _ _ _) as [p0| |] eqn:E0;
    try discriminate.
  destruct (Factory.Make_IntReadOnlyCV _ int64_t _ _ _) as [p1| |] eqn:E1;
    try discriminate.
  intros [= <-] parm.
  destruct parm; eexists; (split; [cbn [make ClusterConfig_template]; eassumption || reflexivity | reflexivity]).
Qed.

Lemma make_with_override (overrides : gmap string string) (d : Declaration)
  (text : string) :
  overrides !! decl_key d = Some text ->
  make {| mOverrides := overrides |} d = override_object d text.
Proof.
  intros E. destruct d; simpl in E; simpl;
    unfold Factory.Make_IntReadOnlyCV, Factory.Make_IntUpdatableCV,
      Factory.Make_BoolReadOnlyCV, Factory.Make_StrReadOnlyCV,
      Factory.resolveVal_int, Factory.resolveVal_bool, Factory.resolveVal_str;
    simpl; rewrite E; try reflexivity; now destruct (stoi text).
Qed.

Lemma make_without_override (overrides : gmap string string) (d : Declaration) :
  overrides !! decl_key d = None ->
  make {| mOverrides := overrides |} d = Return (default_object d).
Proof.
  intros E. destruct d; simpl in E; simpl;
    unfold Factory.Make_IntReadOnlyCV, Factory.Make_IntUpdatableCV,
      Factory.Make_BoolReadOnlyCV, Factory.Make_StrReadOnlyCV,
      Factory.resolveVal_int, Factory.resolveVal_bool, Factory.resolveVal_str;
    simpl; rewrite E; reflexivity.
Qed.

Lemma convert_default_object (d : Declaration) (T : DestType) :
  Config.convertToType (default_object d) T = coerced_default d T.
Proof.
  destruct d, T; simpl; rewrite ?asBool_int; try reflexivity;
    try (now rewrite cast_via_int64).
  destruct (stoi defVal); simpl; try reflexivity.
  change (Return (cast T (cast int64_t a)) = Return (cast T a)).
  now rewrite cast_via_int64.
Qed.

(** The integer projection of a text value is what [stoi] makes of the
    text: an [int] is already a 64-bit integer. *)
Lemma asInt_text (s key help : string) :
  CV.asInt (StrReadOnlyCV s key help) = stoi s.
Proof.
  cbn [CV.asInt]. destruct (stoi s) as [n| |] eqn:E; try reflexivity.
  apply stoi_Return_iff in E as [_ R].
  change (Return (cast int64_t n) = Return n).
  rewrite cast_id; [reflexivity|].
  apply (in_range_int64 int32_t); [discriminate | assumption].
Qed.

(** * The claims *)

(** C1. When the declared name of a parameter is a key of the override
    mapping, the factory builds the value object from the override text,
    parsed for the storage kind of the parameter ([stoi] and a conversion to
    the stored integer type, the boolean text rule, or the text itself); the
    declared default plays no part.  A registry built from that mapping holds
    this object for the parameter and answers [get] from it. *)
Theorem override_replaces_default
  (overrides : gmap string string) (d : Declaration) (text : string) :
  overrides !! decl_key d = Some text ->
  make {| mOverrides := overrides |} d = override_object d text
  /\ (forall cfg parm,
        DatabaseConfig overrides = Return cfg -> DatabaseConfig_template parm = d ->
        exists cv, override_object d text = Return cv
          /\ Config.value_of cfg parm = Some cv
          /\ forall T, Config.as_ T cfg parm = (Config.convertToType cv T, cfg))
  /\ (forall cfg parm,
        ClusterConfig overrides = Return cfg -> ClusterConfig_template parm = d ->
        exists cv, override_object d text = Return cv
          /\ Config.value_of cfg parm = Some cv
          /\ forall T, Config.as_ T cfg parm = (Config.convertToType cv T, cfg)).
Proof.
  intros E. pose proof (make_with_override overrides d text E) as M.
  split; [exact M|]. split.
  - intros cfg parm C <-.
    destruct (DatabaseConfig_entries _ _ C parm) as (cv & Mk & L).
    exists cv. rewrite <- M. split; [exact Mk|]. split.
    + unfold Config.value_of. now rewrite L.
    + intros T. now apply as_declared.
  - intros cfg parm C <-.
    destruct (ClusterConfig_entries _ _ C parm) as (cv & Mk & L).
    exists cv. rewrite <- M. split; [exact Mk|]. split.
    + unfold Config.value_of. now rewrite L.
    + intros T. now apply as_declared.
Qed.

(** The scenario of the demonstration program: the override "512" for
    MAX_ROWS_PER_ROWGROUP, whose default is 10000, read back as text. *)
Lemma override_replaces_default_witness :
  make {| mOverrides := {[ "MAX_ROWS_PER_ROWGROUP" := "512" ]} |}
       (DatabaseConfig_template MAX_ROWS_PER_ROWGROUP)
  = Return (IntReadOnlyCV int32_t 512 "MAX_ROWS_PER_ROWGROUP"
              "Maximum number of rows per row group.")
  /\ exists cfg,
       DatabaseConfig {[ "MAX_ROWS_PER_ROWGROUP" := "512" ]} = Return cfg
       /\ Config.as_ to_str cfg MAX_ROWS_PER_ROWGROUP = (Return "512", cfg).
Proof.
  destruct (override_replaces_default
              {[ "MAX_ROWS_PER_ROWGROUP" := "512" ]}
              (DatabaseConfig_template MAX_ROWS_PER_ROWGROUP) "512")
    as (M & D & _); [reflexivity|].
  split; [exact M|].
  eexists. split; [reflexivity|].
  lazymatch goal with
  | |- Config.as_ _ ?cfg _ = _ =>
      destruct (D cfg MAX_ROWS_PER_ROWGROUP eq_refl eq_refl) as (cv & O & _ & G)
  end.
  injection O as <-. rewrite (G to_str). reflexivity.
Defined.

(** C2. With an empty override mapping the factory stores the declared
    default itself, without parsing or converting it, and every [get] on a
    registry built that way returns the declared default coerced to the
    requested type, after any number of earlier [get]s, and leaves the
    registry as it was. *)
Theorem default_without_override (d : Declaration) (T : DestType) :
  make {| mOverrides := ∅ |} d = Return (default_object d)
  /\ Config.convertToType (default_object d) T = coerced_default d T
  /\ (exists db, DatabaseConfig ∅ = Return db /\
        forall parm,
          Config.value_of db parm = Some (default_object (DatabaseConfig_template parm))
          /\ forall reads,
               Config.as_ T (Config.after_gets db reads) parm
               = (coerced_default (DatabaseConfig_template parm) T, db))
  /\ (exists cl, ClusterConfig ∅ = Return cl /\
        forall parm,
          Config.value_of cl parm = Some (default_object (ClusterConfig_template parm))
          /\ forall reads,
               Config.as_ T (Config.after_gets cl reads) parm
               = (coerced_default (ClusterConfig_template parm) T, cl)).
Proof.
  split; [apply make_without_override, lookup_empty|].
  split; [apply convert_default_object|]. split.
  - assert (exists db, DatabaseConfig ∅ = Return db) as [db E]
      by (eexists; reflexivity).
    exists db. split; [exact E|]. intros parm.
    destruct (DatabaseConfig_entries _ _ E parm) as (cv & Mk & L).
    rewrite make_without_override in Mk by apply lookup_empty.
    injection Mk as <-. split.
    + unfold Config.value_of. now rewrite L.
    + intros reads. rewrite after_gets_declared.
      * now rewrite (as_declared _ _ _ T L), convert_default_object.
      * intros q. destruct (DatabaseConfig_entries _ _ E q) as (c & _ & Lq). eauto.
  - assert (exists cl, ClusterConfig ∅ = Return cl) as [cl E]
      by (eexists; reflexivity).
    exists cl. split; [exact E|]. intros parm.
    destruct (ClusterConfig_entries _ _ E parm) as (cv & Mk & L).
    rewrite make_without_override in Mk by apply lookup_empty.
    injection Mk as <-. split.
    + unfold Config.value_of. now rewrite L.
    + intros reads. rewrite after_gets_declared.
      * now rewrite (as_declared _ _ _ T L), convert_default_object.
      * intros q. destruct (ClusterConfig_entries _ _ E q) as (c & _ & Lq). eauto.
Qed.

(** C3. On a read-only value (integer, boolean or text), [set] with any
    text throws, the message of the exception ends with the name of the
    parameter, the registry is left as it was, and so a [get] made right
    after returns what it returned before. *)
Theorem set_on_read_only_is_refused
  {TConfigEnum : Type} `{Countable TConfigEnum}
  (self : Config.ConfigTemplate TConfigEnum) (parm : TConfigEnum)
  (cv : AbstractCV) (newVal : string) :
  Config.mParms self !! parm = Some (Some cv) ->
  CV.read_only cv = true ->
  Config.set self parm newVal =
    (Throw (runtime_error
       ("Read-only config value.  Set is not supported: " ++ CV.key cv)), self)
  /\ Config.value_of (Config.set self parm newVal).2 parm = Some cv
  /\ (forall T, Config.as_ T (Config.set self parm newVal).2 parm
               = Config.as_ T self parm).
Proof.
  intros E R.
  assert (S : Config.set self parm newVal =
    (Throw (runtime_error
       ("Read-only config value.  Set is not supported: " ++ CV.key cv)), self)).
  { rewrite (set_declared _ _ _ _ E), (set_read_only _ _ R). reflexivity. }
  rewrite S. simpl. split; [reflexivity|]. split; [|reflexivity].
  unfold Config.value_of. now rewrite E.
Qed.

(** The read-only boolean INSERT_FLUSH, overridden to "false": [set] is
    refused and the value read stays false. *)
Lemma set_on_read_only_is_refused_witness :
  exists cfg, ClusterConfig {[ "INSERT_FLUSH" := "false" ]} = Return cfg /\
    Config.as_ to_bool cfg INSERT_FLUSH = (Return false, cfg) /\
    Config.set cfg INSERT_FLUSH "true" =
      (Throw (runtime_error
         "Read-only config value.  Set is not supported: INSERT_FLUSH"), cfg) /\
    Config.as_ to_bool (Config.set cfg INSERT_FLUSH "true").2 INSERT_FLUSH
      = (Return false, cfg).
Proof.
  eexists. split; [reflexivity|]. split; [reflexivity|].
  lazymatch goal with
  | |- Config.set ?cfg _ _ = _ /\ _ =>
      destruct (set_on_read_only_is_refused cfg INSERT_FLUSH
                  (BoolReadOnlyCV false "INSERT_FLUSH" "Does each insert flush?")
                  "true" eq_refl eq_refl) as (S & _ & G)
  end.
  split; [exact S | rewrite (G to_bool); reflexivity].
Defined.

(** C4, as stated, fails on the code.  "4294967296" is an integer literal
    and a value of the 64-bit type CACHE_MEM_SZ is stored in, yet [set] with
    it throws [std::out_of_range], and a [get] made afterwards still returns
    the value held before. *)
Lemma set_rejects_integer_text_outside_int :
  integer_literal "4294967296" = true
  /\ begins_with_integer "4294967296" 4294967296
  /\ in_range int64_t 4294967296
  /\ exists cfg, DatabaseConfig ∅ = Return cfg
       /\ Config.set cfg CACHE_MEM_SZ "4294967296"
          = (Throw (out_of_range "stoi"), cfg)
       /\ (Config.as_ (to_int uint64_t)
             (Config.set cfg CACHE_MEM_SZ "4294967296").2 CACHE_MEM_SZ).1
          = Return 0.
Proof.
  split; [reflexivity|]. split.
  - exists "", "", "4294967296", "", 1.
    split; [reflexivity|]. split; [reflexivity|]. split; [reflexivity|].
    split; [discriminate|]. split; [reflexivity|]. split; reflexivity.
  - split; [apply in_rangeb_spec; reflexivity|].
    eexists. split; [reflexivity|]. split; reflexivity.
Qed.

(** C4, amended.  On an updatable integer parameter, [set] with a text
    that begins with an integer [n] of the 32-bit signed range (an integer
    literal of that range in particular) returns normally and replaces the
    stored value by [n] converted to the parameter's integer type; every
    [get] made afterwards, of any type, is answered from the new value
    alone and leaves the registry as [set] left it, so the value held before
    is not seen again.  When [n] fits the stored type and the requested
    one, [get] returns [n] itself. *)
Theorem set_on_updatable_replaces_value
  {TConfigEnum : Type} `{Countable TConfigEnum}
  (self : Config.ConfigTemplate TConfigEnum) (parm : TConfigEnum)
  (T : IntType) (old : Z) (key help : string) (v : string) (n : Z) :
  Config.mParms self !! parm = Some (Some (IntUpdatableCV T old key help)) ->
  begins_with_integer v n ->
  in_range int32_t n ->
  (Config.set self parm v).1 = Return tt
  /\ Config.value_of (Config.set self parm v).2 parm
     = Some (IntUpdatableCV T (cast T n) key help)
  /\ Config.as_ to_str (Config.set self parm v).2 parm
     = (Return (to_string (cast T n)), (Config.set self parm v).2)
  /\ Config.as_ to_bool (Config.set self parm v).2 parm
     = (Return (negb (cast T n =? 0)), (Config.set self parm v).2)
  /\ (forall U, Config.as_ (to_int U) (Config.set self parm v).2 parm
                = (Return (cast U (cast T n)), (Config.set self parm v).2))
  /\ (forall U, in_range T n -> in_range U n ->
                Config.as_ (to_int U) (Config.set self parm v).2 parm
                = (Return n, (Config.set self parm v).2)).
Proof.
  intros E B R.
  assert (P : stoi v = Return n) by (apply stoi_Return_iff; split; assumption).
  rewrite (set_declared _ _ _ _ E). cbn [CV.set]. rewrite P.
  cbn [mbind outcome_bind mret outcome_ret fst snd].
  set (self' := {| Config.mFactory := _; Config.mParms := _ |}).
  assert (E' : Config.mParms self' !! parm
               = Some (Some (IntUpdatableCV T (cast T n) key help)))
    by (subst self'; cbn [Config.mParms]; apply lookup_insert_eq).
  destruct (convert_updatable T (cast T n) key help) as (Cs & Cb & Ci).
  split; [reflexivity|].
  split; [unfold Config.value_of; now rewrite E'|].
  split; [now rewrite (as_declared _ _ _ to_str E'), Cs|].
  split; [now rewrite (as_declared _ _ _ to_bool E'), Cb|].
  split.
  - intros U. now rewrite (as_declared _ _ _ (to_int U) E'), Ci.
  - intros U RT RU.
    rewrite (as_declared _ _ _ (to_int U) E'), Ci.
    now rewrite (cast_id T n RT), (cast_id U n RU).
Qed.

(** CACHE_MEM_SZ defaults to 0; after [set] with "4096000" it reads
    4096000 as an unsigned 64-bit integer. *)
Lemma set_on_updatable_replaces_value_witness :
  exists cfg, DatabaseConfig ∅ = Return cfg /\
    Config.as_ (to_int uint64_t) cfg CACHE_MEM_SZ = (Return 0, cfg) /\
    (Config.set cfg CACHE_MEM_SZ "4096000").1 = Return tt /\
    (Config.as_ (to_int uint64_t)
       (Config.set cfg CACHE_MEM_SZ "4096000").2 CACHE_MEM_SZ).1 = Return 4096000.
Proof.
  eexists. split; [reflexivity|]. split; [reflexivity|].
  assert (B : begins_with_integer "4096000" 4096000).
  { exists "", "", "4096000", "", 1.
    split; [reflexivity|]. split; [reflexivity|]. split; [reflexivity|].
    split; [discriminate|]. split; [reflexivity|]. split; reflexivity. }
  assert (R : in_range int32_t 4096000) by (apply in_rangeb_spec; reflexivity).
  lazymatch goal with
  | |- (Config.set ?cfg _ _).1 = _ /\ _ =>
      destruct (set_on_updatable_replaces_value cfg CACHE_MEM_SZ int64_t 0
                  "CACHE_MEM_SZ" "Memory size of cache" "4096000" 4096000
                  eq_refl B R) as (S & _ & _ & _ & _ & G)
  end.
  split; [exact S|].
  rewrite (G uint64_t); [reflexivity | |]; apply in_rangeb_spec; reflexivity.
Defined.

(** C5. [get] as an integer type [U] on a parameter that stores an
    integer always returns, leaves the registry as it was, and what it
    returns is the 64-bit projection of the stored integer converted to
    [U]: a value of [U] that has the low [bits U] bits of the projection
    (two's-complement truncation), whether the projection fits [U] or not,
    and the projection itself when it does fit. *)
Theorem get_integer_truncates
  {TConfigEnum : Type} `{Countable TConfigEnum}
  (self : Config.ConfigTemplate TConfigEnum) (parm : TConfigEnum)
  (cv : AbstractCV) (m : Z) (U : IntType) :
  Config.mParms self !! parm = Some (Some cv) ->
  stored_integer cv = Some m ->
  Config.as_ (to_int U) self parm = (Return (cast U (cast int64_t m)), self)
  /\ CV.asInt cv = Return (cast int64_t m)
  /\ Config.convertToType cv (to_int U) = Return (cast U (cast int64_t m))
  /\ in_range U (cast U (cast int64_t m))
  /\ (forall i, 0 <= i < bits U ->
        Z.testbit (cast U (cast int64_t m)) i = Z.testbit (cast int64_t m) i)
  /\ cast U (cast int64_t m) mod 2 ^ bits U = cast int64_t m mod 2 ^ bits U
  /\ (in_range U (cast int64_t m) ->
      Config.as_ (to_int U) self parm = (Return (cast int64_t m), self)).
Proof.
  intros E S.
  assert (A : CV.asInt cv = Return (cast int64_t m))
    by (destruct cv; simpl in S; try discriminate; injection S as ->; reflexivity).
  assert (C : Config.convertToType cv (to_int U) = Return (cast U (cast int64_t m)))
    by (cbn [Config.convertToType]; rewrite A; reflexivity).
  assert (G : Config.as_ (to_int U) self parm
              = (Return (cast U (cast int64_t m)), self))
    by (rewrite (as_declared _ _ _ (to_int U) E), C; reflexivity).
  split; [exact G|]. split; [exact A|]. split; [exact C|].
  split; [apply cast_in_range|]. split; [intros i; apply cast_testbit|].
  split; [apply cast_mod|].
  intros R. rewrite G. now rewrite (cast_id U _ R).
Qed.

(** CACHE_MEM_SZ set to 131072 reads 0 as an 8-bit and as a 16-bit integer,
    and 131072 as a 64-bit integer. *)
Lemma get_integer_truncates_witness :
  exists cfg, DatabaseConfig ∅ = Return cfg
    /\ (Config.set cfg CACHE_MEM_SZ "131072").1 = Return tt
    /\ (Config.as_ (to_int uint8_t)
          (Config.set cfg CACHE_MEM_SZ "131072").2 CACHE_MEM_SZ).1 = Return 0
    /\ (Config.as_ (to_int uint16_t)
          (Config.set cfg CACHE_MEM_SZ "131072").2 CACHE_MEM_SZ).1 = Return 0
    /\ (Config.as_ (to_int int16_t)
          (Config.set cfg CACHE_MEM_SZ "131072").2 CACHE_MEM_SZ).1 = Return 0
    /\ (Config.as_ (to_int int64_t)
          (Config.set cfg CACHE_MEM_SZ "131072").2 CACHE_MEM_SZ).1 = Return 131072
    /\ (Config.as_ (to_int uint64_t)
          (Config.set cfg CACHE_MEM_SZ "131072").2 CACHE_MEM_SZ).1 = Return 131072.
Proof.
  eexists. split; [reflexivity|]. split; [reflexivity|].
  lazymatch goal with
  | |- (Config.as_ _ ?self ?p).1 = _ /\ _ =>
      pose proof (fun U =>
        proj1 (get_integer_truncates self p
                 (IntUpdatableCV int64_t 131072 "CACHE_MEM_SZ" "Memory size of cache")
                 131072 U eq_refl eq_refl)) as G
  end.
  split; [rewrite (G uint8_t); reflexivity|].
  split; [rewrite (G uint16_t); reflexivity|].
  split; [rewrite (G int16_t); reflexivity|].
  split; [rewrite (G int64_t); reflexivity | rewrite (G uint64_t); reflexivity].
Defined.

(** C6. The boolean projection of a text value is the case-insensitive
    rule: false when the text is "0", "FALSE" or "OFF" in any mix of upper
    and lower case, true for every other text, the empty one included.  The
    boolean projection of an integer value is true exactly when the integer
    is not zero. *)
Theorem asBool_rule :
  (forall s key help,
     CV.asBool (StrReadOnlyCV s key help)
     = negb (eq_nocase s "0" || eq_nocase s "FALSE" || eq_nocase s "OFF"))
  /\ (forall T z key help, CV.asBool (IntReadOnlyCV T z key help) = negb (z =? 0))
  /\ (forall T z key help, CV.asBool (IntUpdatableCV T z key help) = negb (z =? 0))
  /\ (forall key help,
        CV.asBool (StrReadOnlyCV "" key help) = true
        /\ CV.asBool (StrReadOnlyCV "true" key help) = true
        /\ CV.asBool (StrReadOnlyCV "TRUE" key help) = true
        /\ CV.asBool (StrReadOnlyCV "1" key help) = true
        /\ CV.asBool (StrReadOnlyCV "yes" key help) = true
        /\ CV.asBool (StrReadOnlyCV "0" key help) = false
        /\ CV.asBool (StrReadOnlyCV "false" key help) = false
        /\ CV.asBool (StrReadOnlyCV "off" key help) = false
        /\ CV.asBool (StrReadOnlyCV "OFF" key help) = false).
Proof.
  split; [intros s key help; apply strToBool_spec|].
  split; [intros T z key help; apply asBool_int|].
  split; [intros T z key help; apply asBool_int|].
  intros key help. repeat split; reflexivity.
Qed.

(** C7, as stated, fails on the code.  "512abc" is not an integer literal,
    yet the integer projection of a text value holding it returns 512; and
    "2147483648" is an integer literal, yet the projection throws. *)
Lemma asInt_text_not_iff_literal :
  integer_literal "512abc" = false
  /\ CV.asInt (StrReadOnlyCV "512abc" "SHARED_FS" "The file system type")
     = Return 512
  /\ integer_literal "2147483648" = true
  /\ CV.asInt (StrReadOnlyCV "2147483648" "SHARED_FS" "The file system type")
     = Throw (out_of_range "stoi")
  /\ ~ (forall s key help,
          (exists e, CV.asInt (StrReadOnlyCV s key help) = Throw e)
          <-> integer_literal s = false).
Proof.
  repeat split; try reflexivity.
  intros C. destruct (C "512abc" "" "") as [_ C2].
  destruct (C2 eq_refl) as [e E]. discriminate E.
Qed.

(** C7, amended.  The integer projection of a boolean value is 0 or 1.
    The integer projection of a text value is the integer the text begins
    with (after optional white space: an optional sign and the longest run
    of decimal digits; what follows the digits is not read), when that
    integer is in the 32-bit signed range; it throws exactly when the text
    does not begin with an integer in that range, [std::invalid_argument]
    when it begins with no integer at all and [std::out_of_range]
    otherwise.  Whatever is returned is a 64-bit signed integer. *)
Theorem asInt_projection :
  (forall b key help,
     CV.asInt (BoolReadOnlyCV b key help) = Return (if b then 1 else 0))
  /\ (forall s key help n,
        CV.asInt (StrReadOnlyCV s key help) = Return n
        <-> begins_with_integer s n /\ in_range int32_t n)
  /\ (forall s key help,
        (exists e, CV.asInt (StrReadOnlyCV s key help) = Throw e)
        <-> ~ exists n, begins_with_integer s n /\ in_range int32_t n)
  /\ (forall s key help,
        CV.asInt (StrReadOnlyCV s key help) = Throw (invalid_argument "stoi")
        <-> ~ exists n, begins_with_integer s n)
  /\ (forall s key help n,
        begins_with_integer s n -> ~ in_range int32_t n ->
        CV.asInt (StrReadOnlyCV s key help) = Throw (out_of_range "stoi"))
  /\ (forall cv z, CV.asInt cv = Return z -> in_range int64_t z).
Proof.
  split; [intros [] key help; reflexivity|].
  split; [intros s key help n; rewrite asInt_text; apply stoi_Return_iff|].
  split; [intros s key help; rewrite asInt_text; apply stoi_Throw_iff|].
  split; [|split].
  - intros s key help. rewrite asInt_text. split.
    + intros E [n Hn]. rewrite (stoi_begins s n Hn) in E.
      destruct (in_rangeb int32_t n); discriminate.
    + intros No. destruct (stoi_cases s) as [Hn|E]; [contradiction | exact E].
  - intros s key help n Hn R. rewrite asInt_text, (stoi_begins s n Hn).
    destruct (in_rangeb int32_t n) eqn:B; [|reflexivity].
    apply in_rangeb_spec in B. contradiction.
  - intros cv z. destruct cv; cbn [CV.asInt].
    + intros [= <-]. apply cast_in_range.
    + intros [= <-]. apply cast_in_range.
    + intros [= <-]. apply cast_in_range.
    + destruct (stoi mVal); simpl; try discriminate.
      intros E. injection E as <-. apply cast_in_range.
Qed.

(** Two texts that begin with an integer and go on with something else. *)
Lemma asInt_projection_witness :
  CV.asInt (StrReadOnlyCV "  -12 nodes" "NODES" "help") = Return (-12)
  /\ CV.asInt (StrReadOnlyCV "512abc" "SHARED_FS" "The file system type")
     = Return 512.
Proof.
  destruct asInt_projection as (_ & R & _).
  split; apply R.
  - split; [|apply in_rangeb_spec; reflexivity].
    exists "  ", "-", "12", " nodes", (-1).
    repeat split; try reflexivity. discriminate.
  - split; [|apply in_rangeb_spec; reflexivity].
    exists "", "", "512", "abc", 1.
    repeat split; try reflexivity. discriminate.
Defined.

(** C8. Text that begins with an integer (optional white space, an
    optional sign, one or more digits) is parsed to that integer whatever
    follows the digits, and only when the integer is in the 32-bit signed
    range: otherwise [std::out_of_range] is thrown, for every stored
    integer type.  This holds for the argument of [set] on an updatable
    integer and for the override of an integer parameter at construction;
    what is stored is the integer converted to the stored type. *)
Theorem integer_text_is_read_by_prefix
  (ws sign ds rest : string) (sg : Z) :
  all_chars isspace ws = true ->
  sign_factor sign = Some sg ->
  ds <> "" -> all_chars isdigit ds = true ->
  starts_with_digit rest = false ->
  stoi (ws ++ sign ++ ds ++ rest)
  = (if in_rangeb int32_t (sg * decimal ds) then Return (sg * decimal ds)
     else Throw (out_of_range "stoi"))
  /\ (forall T old key help,
        CV.set (IntUpdatableCV T old key help) (ws ++ sign ++ ds ++ rest)
        = if in_rangeb int32_t (sg * decimal ds)
          then Return (IntUpdatableCV T (cast T (sg * decimal ds)) key help)
          else Throw (out_of_range "stoi"))
  /\ (forall overrides T key defVal,
        overrides !! key = Some (ws ++ sign ++ ds ++ rest) ->
        Factory.resolveVal_int {| mOverrides := overrides |} T key defVal
        = if in_rangeb int32_t (sg * decimal ds)
          then Return (cast T (sg * decimal ds))
          else Throw (out_of_range "stoi"))
  /\ (forall overrides T key defVal help,
        overrides !! key = Some (ws ++ sign ++ ds ++ rest) ->
        Factory.Make_IntReadOnlyCV {| mOverrides := overrides |} T key defVal help
        = (if in_rangeb int32_t (sg * decimal ds)
           then Return (IntReadOnlyCV T (cast T (sg * decimal ds)) key help)
           else Throw (out_of_range "stoi"))
        /\ Factory.Make_IntUpdatableCV {| mOverrides := overrides |} T key defVal help
        = (if in_rangeb int32_t (sg * decimal ds)
           then Return (IntUpdatableCV T (cast T (sg * decimal ds)) key help)
           else Throw (out_of_range "stoi"))).
Proof.
  intros Hws Hsg Hne Hds Hrest.
  assert (B : begins_with_integer (ws ++ sign ++ ds ++ rest) (sg * decimal ds))
    by (exists ws, sign, ds, rest, sg; auto 10).
  pose proof (stoi_begins _ _ B) as S.
  assert (R : forall overrides T key defVal,
    overrides !! key = Some (ws ++ sign ++ ds ++ rest) ->
    Factory.resolveVal_int {| mOverrides := overrides |} T key defVal
    = if in_rangeb int32_t (sg * decimal ds)
      then Return (cast T (sg * decimal ds))
      else Throw (out_of_range "stoi")).
  { intros overrides T key defVal E. unfold Factory.resolveVal_int.
    cbn [mOverrides]. rewrite E, S.
    now destruct (in_rangeb int32_t (sg * decimal ds)). }
  split; [exact S|]. split; [|split; [exact R|]].
  - intros T old key help. cbn [CV.set]. rewrite S.
    now destruct (in_rangeb int32_t (sg * decimal ds)).
  - intros overrides T key defVal help E.
    unfold Factory.Make_IntReadOnlyCV, Factory.Make_IntUpdatableCV.
    rewrite (R overrides T key defVal E).
    now destruct (in_rangeb int32_t (sg * decimal ds)).
Qed.

(** [set] with "512abc" on CACHE_MEM_SZ stores 512 and throws nothing;
    [set] with "2147483648" throws although the stored type has 64 bits. *)
Lemma integer_text_is_read_by_prefix_witness :
  (exists cfg, DatabaseConfig ∅ = Return cfg /\
     CV.set (IntUpdatableCV int64_t 0 "CACHE_MEM_SZ" "Memory size of cache") "512abc"
     = Return (IntUpdatableCV int64_t 512 "CACHE_MEM_SZ" "Memory size of cache") /\
     (Config.set cfg CACHE_MEM_SZ "512abc").1 = Return tt /\
     Config.value_of (Config.set cfg CACHE_MEM_SZ "512abc").2 CACHE_MEM_SZ
     = Some (IntUpdatableCV int64_t 512 "CACHE_MEM_SZ" "Memory size of cache"))
  /\ CV.set (IntUpdatableCV int64_t 0 "CACHE_MEM_SZ" "Memory size of cache")
            "2147483648"
     = Throw (out_of_range "stoi").
Proof.
  split.
  - eexists. split; [reflexivity|].
    destruct (integer_text_is_read_by_prefix "" "" "512" "abc" 1)
      as (_ & S & _);
      [reflexivity | reflexivity | discriminate | reflexivity | reflexivity |].
    split; [exact (S int64_t 0 "CACHE_MEM_SZ" "Memory size of cache")|].
    split; reflexivity.
  - destruct (integer_text_is_read_by_prefix "" "" "2147483648" "" 1)
      as (_ & S & _);
      [reflexivity | reflexivity | discriminate | reflexivity | reflexivity |].
    exact (S int64_t 0 "CACHE_MEM_SZ" "Memory size of cache").
Defined.

(** C9. The text projection of a boolean value is the lower-case word
    "true" or "false", and the boolean text rule reads that word back as the
    boolean it came from. *)
Theorem asStr_of_boolean (b : bool) (key help : string) :
  CV.asStr (BoolReadOnlyCV b key help) = (if b then "true" else "false")
  /\ strToBool (CV.asStr (BoolReadOnlyCV b key help)) = b
  /\ CV.asBool (StrReadOnlyCV (CV.asStr (BoolReadOnlyCV b key help)) key help) = b.
Proof. destruct b; repeat split; reflexivity. Qed.

(** C10. A [get] of any type on a declared parameter returns the
    conversion of the stored value object and leaves the registry exactly
    as it was (every entry, with its value, name and help text); a second
    [get] therefore returns what the first returned, and a later [get] on
    any parameter is not affected.  No [get], on a declared parameter or
    not, changes a value object. *)
Theorem get_leaves_registry_unchanged
  {TConfigEnum : Type} `{Countable TConfigEnum}
  (self : Config.ConfigTemplate TConfigEnum) (parm : TConfigEnum)
  (cv : AbstractCV) (T : DestType) :
  Config.mParms self !! parm = Some (Some cv) ->
  Config.as_ T self parm = (Config.convertToType cv T, self)
  /\ (Config.as_ T self parm).2 = self
  /\ (Config.as_ T (Config.as_ T self parm).2 parm).1 = (Config.as_ T self parm).1
  /\ (forall parm', Config.value_of (Config.as_ T self parm).2 parm'
                    = Config.value_of self parm')
  /\ (forall U parm', Config.as_ U (Config.as_ T self parm).2 parm'
                      = Config.as_ U self parm')
  /\ (forall (other : Config.ConfigTemplate TConfigEnum) any parm',
        Config.value_of (Config.as_ T other any).2 parm'
        = Config.value_of other parm').
Proof.
  intros E. rewrite (as_declared _ _ _ T E). cbn [fst snd].
  rewrite (as_declared _ _ _ T E). cbn [fst].
  repeat split; try reflexivity.
  intros other any parm'. apply as_value_of.
Qed.

(** Reading STRIDESIZE leaves the registry, and what MAX_ROWS_PER_ROWGROUP
    reads, as they were. *)
Lemma get_leaves_registry_unchanged_witness :
  exists cfg, DatabaseConfig ∅ = Return cfg /\
    Config.as_ (to_int int32_t) cfg STRIDESIZE = (Return 512, cfg) /\
    (Config.as_ to_str (Config.as_ (to_int int32_t) cfg STRIDESIZE).2
       MAX_ROWS_PER_ROWGROUP).1 = Return "10000".
Proof.
  eexists. split; [reflexivity|].
  lazymatch goal with
  | |- Config.as_ _ ?cfg _ = _ /\ _ =>
      destruct (get_leaves_registry_unchanged cfg STRIDESIZE
                  (IntReadOnlyCV int16_t 512 "STRIDE_SIZE"
                     "Maximum stride size of a table")
                  (to_int int32_t) eq_refl) as (G & S & _)
  end.
  split; [rewrite G; reflexivity | rewrite S; reflexivity].
Defined.

(** * Further properties of the code *)

(** ** One step of [set] *)

Lemma set_result (cv : AbstractCV) (v : string) :
  CV.set cv v <> Undefined
  /\ (forall cv', CV.set cv v = Return cv' ->
        CV.read_only cv = false
        /\ CV.key cv' = CV.key cv /\ CV.help cv' = CV.help cv
        /\ kind_of cv' = kind_of cv /\ CV.well_typed cv')
  /\ (forall e, CV.set cv v = Throw e -> CV.read_only cv = true \/ stoi v = Throw e).
Proof.
  destruct cv; cbn [CV.set CV.read_only];
    try (split; [discriminate | split; [discriminate | auto]]).
  pose proof (stoi_defined v) as Hd.
  destruct (stoi v) as [n|e'|]; simpl; [| |contradiction].
  - split; [discriminate|]. split; [|discriminate].
    intros cv' [= <-]. pose proof (cast_in_range T n). simpl. auto 10.
  - split; [discriminate|]. split; [discriminate|].
    intros e [= <-]. now right.
Qed.

(** [set] looks at the object it is called on only for its subclass, its
    integer type, its name and its help text. *)
Lemma set_depends_on_declaration (cv cv' : AbstractCV) (v : string) :
  kind_of cv' = kind_of cv -> CV.key cv' = CV.key cv -> CV.help cv' = CV.help cv ->
  CV.set cv' v = CV.set cv v.
Proof.
  destruct cv, cv'; simpl; intros K Hk Hh; try discriminate; subst;
    try reflexivity.
  injection K as ->. reflexivity.
Qed.

Section Steps.
Context {TConfigEnum : Type} `{Countable TConfigEnum}.
Implicit Types (self : Config.ConfigTemplate TConfigEnum) (parm : TConfigEnum).

Lemma value_of_Some self parm (cv : AbstractCV) :
  Config.value_of self parm = Some cv <-> Config.mParms self !! parm = Some (Some cv).
Proof.
  unfold Config.value_of. destruct (Config.mParms self !! parm) as [[c|]|]; simpl;
    split; congruence.
Qed.

(** What [set] does to the map when the key has a value object. *)
Lemma set_cases self parm (cv : AbstractCV) (v : string) :
  Config.mParms self !! parm = Some (Some cv) ->
  (exists cv', CV.set cv v = Return cv'
     /\ Config.set self parm v
        = (Return tt, {| Config.mFactory := Config.mFactory self;
                         Config.mParms := <[parm := Some cv']> (Config.mParms self) |}))
  \/ (exists e, CV.set cv v = Throw e /\ Config.set self parm v = (Throw e, self)).
Proof.
  intros E. rewrite (set_declared _ _ _ _ E).
  destruct (set_result cv v) as (Hd & _ & _).
  destruct (CV.set cv v) as [cv'|e|]; [left | right | contradiction]; eauto.
Qed.

Lemma set_other_entries self parm (v : string) (q : TConfigEnum) :
  q <> parm ->
  Config.mParms (Config.set self parm v).2 !! q = Config.mParms self !! q.
Proof.
  intros NE. unfold Config.set, Config.index.
  destruct (Config.mParms self !! parm) as [[cv|]|] eqn:E; cbn [snd Config.mParms].
  - destruct (CV.set cv v); cbn [snd Config.mParms]; try reflexivity.
    now rewrite lookup_insert_ne.
  - reflexivity.
  - now rewrite lookup_insert_ne.
Qed.

Lemma set_step self parm (v : string) :
  fully_declared self ->
  fully_declared (Config.set self parm v).2
  /\ forall q cv, Config.mParms self !! q = Some (Some cv) ->
       exists cv', Config.mParms (Config.set self parm v).2 !! q = Some (Some cv')
         /\ CV.key cv' = CV.key cv /\ CV.help cv' = CV.help cv
         /\ kind_of cv' = kind_of cv
         /\ (CV.read_only cv = true -> cv' = cv)
         /\ (CV.well_typed cv -> CV.well_typed cv').
Proof.
  intros D.
  assert (Step : forall q cv, Config.mParms self !! q = Some (Some cv) ->
       exists cv', Config.mParms (Config.set self parm v).2 !! q = Some (Some cv')
         /\ CV.key cv' = CV.key cv /\ CV.help cv' = CV.help cv
         /\ kind_of cv' = kind_of cv
         /\ (CV.read_only cv = true -> cv' = cv)
         /\ (CV.well_typed cv -> CV.well_typed cv')).
  { intros q cv E. destruct (decide (q = parm)) as [->|NE].
    - destruct (set_cases self parm cv v E) as [(cv' & S & ->)|(e & S & ->)];
        cbn [snd Config.mParms].
      + exists cv'. rewrite lookup_insert_eq.
        destruct (set_result cv v) as (_ & R & _).
        destruct (R cv' S) as (Ro & Hk & Hh & Kd & W).
        repeat split; auto. intros Ro'. congruence.
      + exists cv. auto 10.
    - exists cv. rewrite (set_other_entries self parm v q NE). auto 10. }
  split; [|exact Step].
  intros q. destruct (D q) as [cv E]. destruct (Step q cv E) as (cv' & E' & _). eauto.
Qed.

Lemma get_step self parm (T : DestType) :
  fully_declared self -> (Config.as_ T self parm).2 = self.
Proof. intros D. destruct (D parm) as [cv E]. now rewrite (as_declared _ _ _ T E). Qed.

(** The invariants of a registry along any sequence of calls. *)
Lemma operations_invariant self (ops : list Operation) :
  fully_declared self ->
  fully_declared (after_operations self ops)
  /\ forall q cv, Config.mParms self !! q = Some (Some cv) ->
       exists cv', Config.mParms (after_operations self ops) !! q = Some (Some cv')
         /\ CV.key cv' = CV.key cv /\ CV.help cv' = CV.help cv
         /\ kind_of cv' = kind_of cv
         /\ (CV.read_only cv = true -> cv' = cv)
         /\ (CV.well_typed cv -> CV.well_typed cv').
Proof.
  revert self. induction ops as [|[T parm|parm v] ops IH]; intros self D;
    cbn [after_operations].
  - split; [exact D|]. intros q cv E. exists cv. auto 10.
  - rewrite (get_step self parm T D). now apply IH.
  - destruct (set_step self parm v D) as (D' & Step).
    destruct (IH _ D') as (D'' & Rest).
    split; [exact D''|]. intros q cv E.
    destruct (Step q cv E) as (c1 & E1 & K1 & H1 & Kd1 & R1 & W1).
    destruct (Rest q c1 E1) as (c2 & E2 & K2 & H2 & Kd2 & R2 & W2).
    exists c2. split; [exact E2|].
    split; [congruence|]. split; [congruence|]. split; [congruence|].
    split.
    + intros Ro. rewrite <- (R1 Ro). apply R2.
      rewrite (R1 Ro). exact Ro.
    + auto.
Qed.

End Steps.

(** ** What the constructors establish *)

Lemma make_follows_declaration (f : CVFactory) (d : Declaration) (cv : AbstractCV) :
  make f d = Return cv ->
  CV.key cv = decl_key d /\ CV.help cv = decl_help d
  /\ kind_of cv = kind_of_declaration d.
Proof.
  destruct d; cbn [make];
    unfold Factory.Make_IntReadOnlyCV, Factory.Make_IntUpdatableCV,
      Factory.Make_BoolReadOnlyCV, Factory.Make_StrReadOnlyCV;
    try (intros [= <-]; repeat split);
    destruct (Factory.resolveVal_int f T key defVal); simpl; try discriminate;
    intros [= <-]; repeat split.
Qed.

Lemma DatabaseConfig_declared (overrides : gmap string string)
  (cfg : Config.ConfigTemplate DatabaseConfigParm) :
  DatabaseConfig overrides = Return cfg -> fully_declared cfg.
Proof.
  intros E parm. destruct (DatabaseConfig_entries _ _ E parm) as (cv & _ & L). eauto.
Qed.

Lemma ClusterConfig_declared (overrides : gmap string string)
  (cfg : Config.ConfigTemplate ClusterConfigParm) :
  ClusterConfig overrides = Return cfg -> fully_declared cfg.
Proof.
  intros E parm. destruct (ClusterConfig_entries _ _ E parm) as (cv & _ & L). eauto.
Qed.

Ltac declared_by_computation := intros []; eexists; reflexivity.

(** ** Invariants of the registry *)

(** X1. Both constructors, whatever the override mapping, leave one value
    object per enumerator, carrying the name, the help text, the subclass
    and the integer type written in the member initialiser, with a stored
    integer that is a value of that integer type. *)
Theorem construction_follows_template (overrides : gmap string string) :
  (forall cfg parm, DatabaseConfig overrides = Return cfg ->
     exists cv, Config.value_of cfg parm = Some cv
       /\ CV.key cv = decl_key (DatabaseConfig_template parm)
       /\ CV.help cv = decl_help (DatabaseConfig_template parm)
       /\ kind_of cv = kind_of_declaration (DatabaseConfig_template parm)
       /\ CV.well_typed cv)
  /\ (forall cfg parm, ClusterConfig overrides = Return cfg ->
     exists cv, Config.value_of cfg parm = Some cv
       /\ CV.key cv = decl_key (ClusterConfig_template parm)
       /\ CV.help cv = decl_help (ClusterConfig_template parm)
       /\ kind_of cv = kind_of_declaration (ClusterConfig_template parm)
       /\ CV.well_typed cv).
Proof.
  destruct template_defaults_well_typed as (Wd & Wc). split.
  - intros cfg parm E.
    destruct (DatabaseConfig_entries _ _ E parm) as (cv & M & L).
    exists cv. split; [now apply value_of_Some|].
    destruct (make_follows_declaration _ _ _ M) as (K & Hh & Kd).
    repeat split; try assumption. exact (make_well_typed _ _ _ (Wd parm) M).
  - intros cfg parm E.
    destruct (ClusterConfig_entries _ _ E parm) as (cv & M & L).
    exists cv. split; [now apply value_of_Some|].
    destruct (make_follows_declaration _ _ _ M) as (K & Hh & Kd).
    repeat split; try assumption. exact (make_well_typed _ _ _ (Wc parm) M).
Qed.

(** The override "300" does not fit the 8-bit NUM_NODES: what is stored is
    still an 8-bit value, under the declared name. *)
Lemma construction_follows_template_witness :
  exists cfg cv, ClusterConfig {[ "NUM_NODES" := "300" ]} = Return cfg
    /\ Config.value_of cfg NUM_NODES = Some cv
    /\ CV.key cv = "NUM_NODES" /\ kind_of cv = kind_IntReadOnly int8_t
    /\ CV.well_typed cv /\ stored_integer cv = Some 44.
Proof.
  eexists.
  lazymatch goal with
  | |- exists cv, ClusterConfig ?ov = _ /\ _ =>
      pose proof (proj2 (construction_follows_template ov)) as F
  end.
  specialize (F _ NUM_NODES eq_refl). destruct F as (cv & V & K & _ & Kd & W).
  exists cv. split; [reflexivity|]. split; [exact V|].
  split; [exact K|]. split; [exact Kd|]. split; [exact W|].
  lazymatch type of V with
  | Config.value_of ?cfg _ = _ =>
      assert (V' : Config.value_of cfg NUM_NODES
                   = Some (IntReadOnlyCV int8_t 44 "NUM_NODES"
                             "Number of nodes in the cluster."))
        by reflexivity
  end.
  rewrite V' in V. injection V as <-. reflexivity.
Defined.

(** X2. Along any sequence of [get] and [set] calls on a registry that
    has a value object for every key, each parameter keeps its name, its
    help text, its subclass and its integer type: only the stored value of
    an updatable parameter can differ. *)
Theorem operations_keep_declarations
  {TConfigEnum : Type} `{Countable TConfigEnum}
  (self : Config.ConfigTemplate TConfigEnum) (ops : list Operation)
  (parm : TConfigEnum) (cv : AbstractCV) :
  fully_declared self ->
  Config.value_of self parm = Some cv ->
  exists cv', Config.value_of (after_operations self ops) parm = Some cv'
    /\ CV.key cv' = CV.key cv /\ CV.help cv' = CV.help cv
    /\ kind_of cv' = kind_of cv.
Proof.
  intros D V. apply value_of_Some in V.
  destruct (operations_invariant self ops D) as (_ & Inv).
  destruct (Inv parm cv V) as (cv' & E & K & Hh & Kd & _).
  exists cv'. split; [now apply value_of_Some | auto].
Qed.

Lemma operations_keep_declarations_witness :
  exists cfg, DatabaseConfig ∅ = Return cfg
    /\ exists cv',
      Config.value_of
         (after_operations cfg
            [op_set CACHE_MEM_SZ "17"; op_get to_str STRIDESIZE;
             op_set CACHE_MEM_SZ "x"; op_set STRIDESIZE "9"]) CACHE_MEM_SZ
       = Some cv'
      /\ CV.key cv' = "CACHE_MEM_SZ" /\ CV.help cv' = "Memory size of cache"
      /\ kind_of cv' = kind_IntUpdatable int64_t.
Proof.
  eexists. split; [reflexivity|].
  lazymatch goal with
  | |- exists cv', Config.value_of (after_operations ?cfg ?ops) ?p = _ /\ _ =>
      destruct (operations_keep_declarations cfg ops p
                  (IntUpdatableCV int64_t 0 "CACHE_MEM_SZ" "Memory size of cache"))
        as (cv' & V & K & Hh & Kd); [declared_by_computation | reflexivity |]
  end.
  exists cv'. auto.
Defined.

(** X3. A read-only parameter holds the value it was constructed with
    after any sequence of [get] and [set] calls, on it or on other
    parameters, and every [get] on it is answered from that value. *)
Theorem read_only_value_never_changes
  {TConfigEnum : Type} `{Countable TConfigEnum}
  (self : Config.ConfigTemplate TConfigEnum) (ops : list Operation)
  (parm : TConfigEnum) (cv : AbstractCV) :
  fully_declared self ->
  Config.value_of self parm = Some cv ->
  CV.read_only cv = true ->
  Config.value_of (after_operations self ops) parm = Some cv
  /\ forall T, (Config.as_ T (after_operations self ops) parm).1
               = Config.convertToType cv T.
Proof.
  intros D V Ro. apply value_of_Some in V.
  destruct (operations_invariant self ops D) as (_ & Inv).
  destruct (Inv parm cv V) as (cv' & E & _ & _ & _ & Same & _).
  rewrite (Same Ro) in E. split; [now apply value_of_Some|].
  intros T. now rewrite (as_declared _ _ _ T E).
Qed.

Lemma read_only_value_never_changes_witness :
  exists cfg, ClusterConfig ∅ = Return cfg
    /\ (Config.as_ (to_int uint8_t)
          (after_operations cfg
             [op_set NUM_NODES "5"; op_get to_bool INSERT_FLUSH;
              op_set INSERT_FLUSH "false"]) NUM_NODES).1 = Return 3.
Proof.
  eexists. split; [reflexivity|].
  lazymatch goal with
  | |- (Config.as_ ?T (after_operations ?cfg ?ops) ?p).1 = _ =>
      destruct (read_only_value_never_changes cfg ops p
                  (IntReadOnlyCV int8_t 3 "NUM_NODES" "Number of nodes in the cluster."))
        as (_ & G); [declared_by_computation | reflexivity | reflexivity |];
      rewrite (G T)
  end.
  reflexivity.
Defined.

(** X4. When every stored integer of a registry is a value of the integer
    type it is stored in, this is still so after any sequence of [get] and
    [set] calls: [set] converts what it parsed to the stored type. *)
Theorem stored_integers_stay_in_type
  {TConfigEnum : Type} `{Countable TConfigEnum}
  (self : Config.ConfigTemplate TConfigEnum) (ops : list Operation) :
  fully_declared self ->
  registry_well_typed self ->
  registry_well_typed (after_operations self ops).
Proof.
  intros D W q cv' V'. apply value_of_Some in V'.
  destruct (D q) as [cv E].
  destruct (operations_invariant self ops D) as (_ & Inv).
  destruct (Inv q cv E) as (c & Ec & _ & _ & _ & _ & Wt).
  rewrite V' in Ec. injection Ec as <-.
  apply Wt, (W q). now apply value_of_Some.
Qed.

(** X5. On a registry that has a value object for every key, no sequence
    of calls leads to a call that dereferences a null pointer: every [get]
    and every [set] returns or throws. *)
Theorem no_call_is_undefined
  {TConfigEnum : Type} `{Countable TConfigEnum}
  (self : Config.ConfigTemplate TConfigEnum) (ops : list Operation)
  (parm : TConfigEnum) (T : DestType) (v : string) :
  fully_declared self ->
  (Config.as_ T (after_operations self ops) parm).1 <> Undefined
  /\ (Config.set (after_operations self ops) parm v).1 <> Undefined
  /\ fully_declared (after_operations self ops).
Proof.
  intros D. destruct (operations_invariant self ops D) as (D' & _).
  destruct (D' parm) as [cv E]. split; [|split; [|exact D']].
  - rewrite (as_declared _ _ _ T E). cbn [fst].
    destruct T; cbn [Config.convertToType]; try discriminate.
    destruct cv; cbn [CV.asInt]; try discriminate.
    pose proof (stoi_defined mVal). destruct (stoi mVal); simpl; congruence.
  - destruct (set_cases _ parm cv v E) as [(cv' & _ & ->)|(e & _ & ->)];
      discriminate.
Qed.

Lemma stored_integers_stay_in_type_witness :
  exists cfg, DatabaseConfig ∅ = Return cfg
    /\ registry_well_typed
         (after_operations cfg
            [op_set CACHE_MEM_SZ "-2147483648"; op_set STRIDESIZE "70000"]).
Proof.
  eexists. split; [reflexivity|].
  lazymatch goal with
  | |- registry_well_typed (after_operations ?cfg ?ops) =>
      apply (stored_integers_stay_in_type cfg ops); [declared_by_computation|]
  end.
  intros q cv V.
  lazymatch type of V with
  | Config.value_of ?cfg _ = _ =>
      assert (V' : Config.value_of cfg q
                   = Some (default_object (DatabaseConfig_template q)))
        by (destruct q; reflexivity)
  end.
  rewrite V' in V. injection V as <-.
  destruct q; simpl; try exact I; apply in_rangeb_spec; reflexivity.
Defined.

Lemma no_call_is_undefined_witness :
  exists cfg, DatabaseConfig ∅ = Return cfg
    /\ (Config.as_ (to_int int32_t)
          (after_operations cfg [op_set SHARED_FS_TYPE "hdfs"]) SHARED_FS_TYPE).1
       <> Undefined.
Proof.
  eexists. split; [reflexivity|].
  lazymatch goal with
  | |- (Config.as_ ?T (after_operations ?cfg ?ops) ?p).1 <> _ =>
      apply (no_call_is_undefined cfg ops p T ""); declared_by_computation
  end.
Defined.

(** ** How [set] and [get] compose *)

Lemma stoi_leading_space (ws v : string) :
  all_chars isspace ws = true -> stoi (ws ++ v) = stoi v.
Proof.
  intros Hws. unfold stoi. replace (skip_space (ws ++ v)) with (skip_space v);
    [reflexivity|].
  induction ws as [|c r IH]; [reflexivity|].
  simpl in Hws. apply andb_true_iff in Hws as [Hc Hr].
  rewrite append_String. cbn [skip_space]. rewrite Hc. now apply IH.
Qed.

Section Composition.
Context {TConfigEnum : Type} `{Countable TConfigEnum}.
Implicit Types (self : Config.ConfigTemplate TConfigEnum) (parm : TConfigEnum).

Lemma as_result_of_entry self self' parm (T : DestType) :
  Config.mParms self !! parm = Config.mParms self' !! parm ->
  (Config.as_ T self parm).1 = (Config.as_ T self' parm).1.
Proof.
  intros E. unfold Config.as_, Config.index. rewrite E.
  now destruct (Config.mParms self' !! parm) as [[cv|]|].
Qed.

Lemma set_result_of_entry self self' parm (v : string) :
  Config.mParms self !! parm = Config.mParms self' !! parm ->
  (Config.set self parm v).1 = (Config.set self' parm v).1.
Proof.
  intros E. unfold Config.set, Config.index. rewrite E.
  destruct (Config.mParms self' !! parm) as [[cv|]|]; try reflexivity.
  now destruct (CV.set cv v).
Qed.

End Composition.

(** X6. A [set] on one parameter, whether it returns or throws, leaves
    the entry of every other parameter as it was; a [get] or a [set] on
    another parameter has the result it would have had without it. *)
Theorem set_leaves_other_parameters
  {TConfigEnum : Type} `{Countable TConfigEnum}
  (self : Config.ConfigTemplate TConfigEnum) (parm other : TConfigEnum)
  (newVal : string) :
  other <> parm ->
  Config.mParms (Config.set self parm newVal).2 !! other = Config.mParms self !! other
  /\ Config.mFactory (Config.set self parm newVal).2 = Config.mFactory self
  /\ (forall T, (Config.as_ T (Config.set self parm newVal).2 other).1
               = (Config.as_ T self other).1)
  /\ (forall v, (Config.set (Config.set self parm newVal).2 other v).1
               = (Config.set self other v).1).
Proof.
  intros NE. pose proof (set_other_entries self parm newVal other NE) as E.
  split; [exact E|]. split.
  - unfold Config.set, Config.index.
    destruct (Config.mParms self !! parm) as [[cv|]|]; try reflexivity.
    now destruct (CV.set cv newVal).
  - split; [intros T; now apply as_result_of_entry
           | intros v; now apply set_result_of_entry].
Qed.

Lemma set_leaves_other_parameters_witness :
  exists cfg, DatabaseConfig ∅ = Return cfg
    /\ (Config.as_ (to_int int32_t)
          (Config.set cfg CACHE_MEM_SZ "7").2 STRIDESIZE).1 = Return 512.
Proof.
  eexists. split; [reflexivity|].
  lazymatch goal with
  | |- (Config.as_ ?T (Config.set ?cfg ?p ?v).2 ?q).1 = _ =>
      destruct (set_leaves_other_parameters cfg p q v) as (_ & _ & G & _);
        [discriminate|]; rewrite (G T)
  end.
  reflexivity.
Defined.

(** X7. A [set] that throws changes nothing: the registry it leaves is
    the registry it was given.  It throws either because the parameter is
    read-only or because [std::stoi] threw on the text, in which case the
    exception is the one [std::stoi] threw. *)
Theorem failed_set_changes_nothing
  {TConfigEnum : Type} `{Countable TConfigEnum}
  (self : Config.ConfigTemplate TConfigEnum) (parm : TConfigEnum)
  (cv : AbstractCV) (newVal : string) (e : exception) :
  Config.mParms self !! parm = Some (Some cv) ->
  (Config.set self parm newVal).1 = Throw e ->
  (Config.set self parm newVal).2 = self
  /\ (CV.read_only cv = true \/ stoi newVal = Throw e).
Proof.
  intros E Th.
  destruct (set_cases self parm cv newVal E) as [(cv' & _ & S)|(e' & S' & S)];
    rewrite S in *; cbn [fst snd] in *; [discriminate|].
  injection Th as ->. split; [reflexivity|].
  destruct (set_result cv newVal) as (_ & _ & R). now apply R.
Qed.

Lemma failed_set_changes_nothing_witness :
  exists cfg, DatabaseConfig ∅ = Return cfg
    /\ Config.set cfg CACHE_MEM_SZ "cache" = (Throw (invalid_argument "stoi"), cfg).
Proof.
  eexists. split; [reflexivity|].
  lazymatch goal with
  | |- Config.set ?cfg ?p ?v = _ =>
      destruct (failed_set_changes_nothing cfg p
                  (IntUpdatableCV int64_t 0 "CACHE_MEM_SZ" "Memory size of cache")
                  v (invalid_argument "stoi") eq_refl eq_refl) as (S & _);
      rewrite (surjective_pairing (Config.set cfg p v)), S
  end.
  reflexivity.
Defined.

(** X8. Of two [set] calls on the same parameter, the second decides:
    when the second returns, the registry and the result are those of the
    second call made alone, whatever the first one did. *)
Theorem second_set_wins
  {TConfigEnum : Type} `{Countable TConfigEnum}
  (self : Config.ConfigTemplate TConfigEnum) (parm : TConfigEnum)
  (cv : AbstractCV) (v1 v2 : string) :
  Config.mParms self !! parm = Some (Some cv) ->
  (Config.set self parm v2).1 = Return tt ->
  Config.set (Config.set self parm v1).2 parm v2 = Config.set self parm v2.
Proof.
  intros E Ok.
  destruct (set_cases self parm cv v1 E) as [(c1 & S1 & ->)|(e1 & _ & ->)];
    cbn [snd]; [|reflexivity].
  destruct (set_cases self parm cv v2 E) as [(c2 & S2 & R2)|(e2 & _ & R2)];
    rewrite R2 in *; [|discriminate].
  destruct (set_result cv v1) as (_ & R & _).
  destruct (R c1 S1) as (_ & K & Hh & Kd & _).
  erewrite set_declared by (cbn [Config.mParms]; apply lookup_insert_eq).
  rewrite (set_depends_on_declaration cv c1 v2 Kd K Hh), S2.
  cbn [Config.mFactory Config.mParms]. now rewrite insert_insert_eq.
Qed.

Lemma second_set_wins_witness :
  exists cfg, DatabaseConfig ∅ = Return cfg
    /\ Config.set (Config.set cfg CACHE_MEM_SZ "1").2 CACHE_MEM_SZ "2"
       = Config.set cfg CACHE_MEM_SZ "2".
Proof.
  eexists. split; [reflexivity|].
  lazymatch goal with
  | |- Config.set (Config.set ?cfg ?p ?v1).2 _ ?v2 = _ =>
      apply (second_set_wins cfg p
               (IntUpdatableCV int64_t 0 "CACHE_MEM_SZ" "Memory size of cache")
               v1 v2 eq_refl eq_refl)
  end.
Defined.

(** X9. [set] calls on two different parameters do not interfere: each
    has the result it has alone, and the registry they leave does not
    depend on their order. *)
Theorem sets_on_distinct_parameters_commute
  {TConfigEnum : Type} `{Countable TConfigEnum}
  (self : Config.ConfigTemplate TConfigEnum) (p q : TConfigEnum)
  (cp cq : AbstractCV) (v w : string) :
  p <> q ->
  Config.mParms self !! p = Some (Some cp) ->
  Config.mParms self !! q = Some (Some cq) ->
  (Config.set (Config.set self p v).2 q w).1 = (Config.set self q w).1
  /\ (Config.set (Config.set self q w).2 p v).1 = (Config.set self p v).1
  /\ (Config.set (Config.set self p v).2 q w).2
     = (Config.set (Config.set self q w).2 p v).2.
Proof.
  intros NE Ep Eq.
  assert (NE' : q <> p) by congruence.
  split; [apply set_result_of_entry, set_other_entries; exact NE'|].
  split; [apply set_result_of_entry, set_other_entries; exact NE|].
  pose proof (set_other_entries self p v q NE') as Lq. rewrite Eq in Lq.
  pose proof (set_other_entries self q w p NE) as Lp. rewrite Ep in Lp.
  rewrite (set_declared _ _ _ w Lq), (set_declared _ _ _ v Lp).
  destruct (set_cases self p cp v Ep) as [(cp' & Sp & Rp)|(ep & Sp & Rp)];
    destruct (set_cases self q cq w Eq) as [(cq' & Sq & Rq)|(eq & Sq & Rq)];
    rewrite Rp, Rq, Sp, Sq; cbn [snd Config.mFactory Config.mParms];
    try reflexivity.
  f_equal. now apply insert_insert_ne.
Qed.

Lemma sets_on_distinct_parameters_commute_witness :
  exists cfg, DatabaseConfig ∅ = Return cfg
    /\ (Config.set (Config.set cfg CACHE_MEM_SZ "64").2 STRIDESIZE "8").2
       = (Config.set (Config.set cfg STRIDESIZE "8").2 CACHE_MEM_SZ "64").2.
Proof.
  eexists. split; [reflexivity|].
  lazymatch goal with
  | |- (Config.set (Config.set ?cfg ?p ?v).2 ?q ?w).2 = _ =>
      destruct (sets_on_distinct_parameters_commute cfg p q
                  (IntUpdatableCV int64_t 0 "CACHE_MEM_SZ" "Memory size of cache")
                  (IntReadOnlyCV int16_t 512 "STRIDE_SIZE"
                     "Maximum stride size of a table") v w)
        as (_ & _ & G); [discriminate | reflexivity | reflexivity | exact G]
  end.
Defined.

(** X10. White space in front of the text given to [set] plays no part:
    the call has the same result and leaves the same registry as the call
    with the text that follows the white space. *)
Theorem set_ignores_leading_space
  {TConfigEnum : Type} `{Countable TConfigEnum}
  (self : Config.ConfigTemplate TConfigEnum) (parm : TConfigEnum)
  (ws newVal : string) :
  all_chars isspace ws = true ->
  Config.set self parm (ws ++ newVal) = Config.set self parm newVal.
Proof.
  intros Hws. unfold Config.set.
  destruct (Config.index self parm) as [[cv|] self']; [|reflexivity].
  replace (CV.set cv (ws ++ newVal)) with (CV.set cv newVal); [reflexivity|].
  destruct cv; cbn [CV.set]; try reflexivity.
  now rewrite (stoi_leading_space ws newVal Hws).
Qed.

Lemma set_ignores_leading_space_witness :
  exists cfg, DatabaseConfig ∅ = Return cfg
    /\ Config.set cfg CACHE_MEM_SZ "  	42" = Config.set cfg CACHE_MEM_SZ "42".
Proof.
  eexists. split; [reflexivity|].
  lazymatch goal with
  | |- Config.set ?cfg ?p _ = _ =>
      apply (set_ignores_leading_space cfg p "  	" "42" eq_refl)
  end.
Defined.

(** X11. A [get] on a declared parameter never dereferences a null
    pointer, and it throws in one case only: an integer type is requested
    from a text parameter and [std::stoi] throws on the stored text.  The
    exception is then the one [std::stoi] threw. *)
Theorem get_throws_only_for_integer_from_text
  {TConfigEnum : Type} `{Countable TConfigEnum}
  (self : Config.ConfigTemplate TConfigEnum) (parm : TConfigEnum)
  (cv : AbstractCV) (T : DestType) :
  Config.mParms self !! parm = Some (Some cv) ->
  (Config.as_ T self parm).1 <> Undefined
  /\ forall e, (Config.as_ T self parm).1 = Throw e ->
       kind_of cv = kind_StrReadOnly
       /\ (exists U, T = to_int U)
       /\ stoi (CV.asStr cv) = Throw e.
Proof.
  intros E. rewrite (as_declared _ _ _ T E). cbn [fst].
  destruct T as [| |U]; cbn [Config.convertToType];
    try (split; [discriminate | intros e; discriminate]).
  destruct cv; cbn [CV.asInt];
    try (split; [discriminate | intros e; discriminate]).
  cbn [CV.asStr kind_of]. pose proof (stoi_defined mVal) as Hd.
  destruct (stoi mVal) as [n|e'|]; simpl; [| |contradiction].
  - split; [discriminate | intros e; discriminate].
  - split; [discriminate|]. intros e [= <-]. eauto.
Qed.

Lemma get_throws_only_for_integer_from_text_witness :
  exists cfg, DatabaseConfig ∅ = Return cfg
    /\ (Config.as_ (to_int int32_t) cfg SHARED_FS_TYPE).1
       = Throw (invalid_argument "stoi")
    /\ stoi "alluxio" = Throw (invalid_argument "stoi").
Proof.
  eexists. split; [reflexivity|].
  lazymatch goal with
  | |- (Config.as_ ?T ?cfg ?p).1 = _ /\ _ =>
      destruct (get_throws_only_for_integer_from_text cfg p
                  (StrReadOnlyCV "alluxio" "SHARED_FS" "The file system type")
                  T eq_refl) as (_ & G)
  end.
  split; [reflexivity|].
  exact (proj2 (proj2 (G (invalid_argument "stoi") eq_refl))).
Defined.

(** ** Construction *)

Lemma make_cases (overrides : gmap string string) (d : Declaration) :
  make {| mOverrides := overrides |} d
  = match overrides !! decl_key d with
    | Some text => override_object d text
    | None => Return (default_object d)
    end.
Proof.
  destruct (overrides !! decl_key d) as [text|] eqn:E.
  - now apply make_with_override.
  - now apply make_without_override.
Qed.

Lemma make_outcome (overrides : gmap string string) (d : Declaration) :
  make {| mOverrides := overrides |} d <> Undefined
  /\ ((exists cv, make {| mOverrides := overrides |} d = Return cv)
      <-> (integer_declaration d = true ->
           forall text, overrides !! decl_key d = Some text ->
                        exists n, stoi text = Return n))
  /\ (forall e, make {| mOverrides := overrides |} d = Throw e ->
        integer_declaration d = true
        /\ exists text, overrides !! decl_key d = Some text /\ stoi text = Throw e).
Proof.
  rewrite make_cases.
  destruct (overrides !! decl_key d) as [text|] eqn:E.
  - pose proof (stoi_defined text) as Hd.
    destruct d; cbn [override_object integer_declaration];
      try (split; [discriminate|]; split;
           [split; [discriminate | eauto] | discriminate]);
      (destruct (stoi text) as [n|e'|] eqn:S; [| |contradiction];
       (split; [discriminate|]); split);
      first
        [ discriminate
        | solve [split; [intros _ _ t [= <-]; eauto | eauto]]
        | solve [split; [intros [cv [=]]
                 | intros P; destruct (P eq_refl text eq_refl) as [n Hn]; congruence]]
        | solve [intros e [= <-]; eauto] ].
  - split; [discriminate|]. split; [|discriminate].
    split; [intros _ _ t [=] | eauto].
Qed.

Lemma DatabaseConfig_as_makes (overrides : gmap string string) :
  DatabaseConfig overrides
  = (p0 ← make {| mOverrides := overrides |} (DatabaseConfig_template MAX_ROWS_PER_ROWGROUP);
     p1 ← make {| mOverrides := overrides |} (DatabaseConfig_template STRIDESIZE);
     p2 ← make {| mOverrides := overrides |} (DatabaseConfig_template SHARED_FS_TYPE);
     p3 ← make {| mOverrides := overrides |} (DatabaseConfig_template CACHE_MEM_SZ);
     Return {| Config.mFactory := {| mOverrides := overrides |};
               Config.mParms := list_to_map
                 [ (MAX_ROWS_PER_ROWGROUP, Some p0); (STRIDESIZE, Some p1);
                   (SHARED_FS_TYPE, Some p2); (CACHE_MEM_SZ, Some p3) ] |}).
Proof. reflexivity. Qed.

Lemma ClusterConfig_as_makes (overrides : gmap string string) :
  ClusterConfig overrides
  = (p0 ← make {| mOverrides := overrides |} (ClusterConfig_template NUM_NODES);
     p1 ← make {| mOverrides := overrides |} (ClusterConfig_template ZK_TIMEOUT);
     p2 ← make {| mOverrides := overrides |} (ClusterConfig_template QUORUM_WRITE);
     p3 ← make {| mOverrides := overrides |} (ClusterConfig_template INSERT_FLUSH);
     Return {| Config.mFactory := {| mOverrides := overrides |};
               Config.mParms := list_to_map
                 [ (NUM_NODES, Some p0); (ZK_TIMEOUT, Some p1);
                   (QUORUM_WRITE, Some p2); (INSERT_FLUSH, Some p3) ] |}).
Proof. reflexivity. Qed.

(** Four factory calls in a row, then the construction of the registry. *)
Lemma four_calls {A B : Type} (m0 m1 m2 m3 : outcome A) (k : A -> A -> A -> A -> B) :
  m0 <> Undefined -> m1 <> Undefined -> m2 <> Undefined -> m3 <> Undefined ->
  (p0 ← m0; p1 ← m1; p2 ← m2; p3 ← m3; Return (k p0 p1 p2 p3)) <> Undefined
  /\ ((exists b, (p0 ← m0; p1 ← m1; p2 ← m2; p3 ← m3; Return (k p0 p1 p2 p3)) = Return b)
      <-> (exists a, m0 = Return a) /\ (exists a, m1 = Return a)
          /\ (exists a, m2 = Return a) /\ (exists a, m3 = Return a))
  /\ (forall e, (p0 ← m0; p1 ← m1; p2 ← m2; p3 ← m3; Return (k p0 p1 p2 p3)) = Throw e ->
        m0 = Throw e \/ m1 = Throw e \/ m2 = Throw e \/ m3 = Throw e).
Proof.
  intros D0 D1 D2 D3.
  destruct m0 as [a0|e0|], m1 as [a1|e1|], m2 as [a2|e2|], m3 as [a3|e3|];
    try contradiction; cbn;
    (split; [discriminate|]);
    (split;
     [split;
      [intros [b E]; try discriminate E; eauto 10
      |intros ([? E0] & [? E1] & [? E2] & [? E3]); try discriminate; eauto]
     |intros e E; try discriminate E; injection E as <-; auto]).
Qed.

(** X12. The construction of a registry never dereferences a null
    pointer, and it returns exactly when [std::stoi] accepts the override
    of every integer parameter that has one: overrides of text and boolean
    parameters, and overrides under other names, cannot make it fail.  When
    it throws, the exception is the one [std::stoi] threw on the override of
    an integer parameter. *)
Theorem construction_fails_only_on_integer_overrides (overrides : gmap string string) :
  (DatabaseConfig overrides <> Undefined
   /\ ((exists cfg, DatabaseConfig overrides = Return cfg)
       <-> forall parm text,
             integer_declaration (DatabaseConfig_template parm) = true ->
             overrides !! decl_key (DatabaseConfig_template parm) = Some text ->
             exists n, stoi text = Return n)
   /\ (forall e, DatabaseConfig overrides = Throw e ->
         exists parm text,
           integer_declaration (DatabaseConfig_template parm) = true
           /\ overrides !! decl_key (DatabaseConfig_template parm) = Some text
           /\ stoi text = Throw e))
  /\ (ClusterConfig overrides <> Undefined
   /\ ((exists cfg, ClusterConfig overrides = Return cfg)
       <-> forall parm text,
             integer_declaration (ClusterConfig_template parm) = true ->
             overrides !! decl_key (ClusterConfig_template parm) = Some text ->
             exists n, stoi text = Return n)
   /\ (forall e, ClusterConfig overrides = Throw e ->
         exists parm text,
           integer_declaration (ClusterConfig_template parm) = true
           /\ overrides !! decl_key (ClusterConfig_template parm) = Some text
           /\ stoi text = Throw e)).
Proof.
  split.
  - rewrite DatabaseConfig_as_makes.
    pose proof (fun parm => make_outcome overrides (DatabaseConfig_template parm)) as M.
    destruct (four_calls _ _ _ _
                (fun p0 p1 p2 p3 =>
                   {| Config.mFactory := {| mOverrides := overrides |};
                      Config.mParms := list_to_map
                        [ (MAX_ROWS_PER_ROWGROUP, Some p0); (STRIDESIZE, Some p1);
                          (SHARED_FS_TYPE, Some p2); (CACHE_MEM_SZ, Some p3) ] |})
                (proj1 (M MAX_ROWS_PER_ROWGROUP)) (proj1 (M STRIDESIZE))
                (proj1 (M SHARED_FS_TYPE)) (proj1 (M CACHE_MEM_SZ)))
      as (U & R & Th).
    split; [exact U|]. split.
    + rewrite R. split.
      * intros (R0 & R1 & R2 & R3) parm text I L.
        destruct parm;
          [exact (proj1 (proj1 (proj2 (M MAX_ROWS_PER_ROWGROUP))) R0 I text L)
          |exact (proj1 (proj1 (proj2 (M STRIDESIZE))) R1 I text L)
          |exact (proj1 (proj1 (proj2 (M SHARED_FS_TYPE))) R2 I text L)
          |exact (proj1 (proj1 (proj2 (M CACHE_MEM_SZ))) R3 I text L)].
      * intros P. repeat split; apply (proj2 (proj1 (proj2 (M _))));
          intros I text L; eapply P; eauto.
    + intros e E. destruct (Th e E) as [E0|[E0|[E0|E0]]];
        apply (proj2 (proj2 (M _))) in E0; destruct E0 as (I & text & L & S);
        eauto 10.
  - rewrite ClusterConfig_as_makes.
    pose proof (fun parm => make_outcome overrides (ClusterConfig_template parm)) as M.
    destruct (four_calls _ _ _ _
                (fun p0 p1 p2 p3 =>
                   {| Config.mFactory := {| mOverrides := overrides |};
                      Config.mParms := list_to_map
                        [ (NUM_NODES, Some p0); (ZK_TIMEOUT, Some p1);
                          (QUORUM_WRITE, Some p2); (INSERT_FLUSH, Some p3) ] |})
                (proj1 (M NUM_NODES)) (proj1 (M ZK_TIMEOUT))
                (proj1 (M QUORUM_WRITE)) (proj1 (M INSERT_FLUSH)))
      as (U & R & Th).
    split; [exact U|]. split.
    + rewrite R. split.
      * intros (R0 & R1 & R2 & R3) parm text I L.
        destruct parm;
          [exact (proj1 (proj1 (proj2 (M NUM_NODES))) R0 I text L)
          |exact (proj1 (proj1 (proj2 (M ZK_TIMEOUT))) R1 I text L)
          |exact (proj1 (proj1 (proj2 (M QUORUM_WRITE))) R2 I text L)
          |exact (proj1 (proj1 (proj2 (M INSERT_FLUSH))) R3 I text L)].
      * intros P. repeat split; apply (proj2 (proj1 (proj2 (M _))));
          intros I text L; eapply P; eauto.
    + intros e E. destruct (Th e E) as [E0|[E0|[E0|E0]]];
        apply (proj2 (proj2 (M _))) in E0; destruct E0 as (I & text & L & S);
        eauto 10.
Qed.

(** An override of a text parameter that is no number, and an override
    under a name that is not declared, do not stop the construction. *)
Lemma construction_fails_only_on_integer_overrides_witness :
  exists cfg,
    DatabaseConfig {[ "SHARED_FS" := "hdfs"; "STRIDESIZE" := "wide" ]} = Return cfg.
Proof.
  apply (proj2 (proj1 (proj2 (proj1
    (construction_fails_only_on_integer_overrides
       {[ "SHARED_FS" := "hdfs"; "STRIDESIZE" := "wide" ]}))))).
  intros [] text I L; try discriminate I; vm_compute in L; discriminate L.
Defined.

Lemma make_depends_on_key (overrides overrides' : gmap string string)
  (d : Declaration) :
  overrides !! decl_key d = overrides' !! decl_key d ->
  make {| mOverrides := overrides |} d = make {| mOverrides := overrides' |} d.
Proof. intros E. now rewrite !make_cases, E. Qed.

(** X13. A registry is built from the overrides found under the declared
    names and from nothing else: two override mappings that agree on the
    declared names give the same value objects, or the same exception.  An
    override under the name of the enumerator STRIDESIZE, whose declared
    name is STRIDE_SIZE, has no effect. *)
Theorem undeclared_override_keys_are_ignored
  (overrides overrides' : gmap string string) :
  ((forall parm, overrides !! decl_key (DatabaseConfig_template parm)
                 = overrides' !! decl_key (DatabaseConfig_template parm)) ->
   parameters (DatabaseConfig overrides) = parameters (DatabaseConfig overrides'))
  /\ ((forall parm, overrides !! decl_key (ClusterConfig_template parm)
                    = overrides' !! decl_key (ClusterConfig_template parm)) ->
      parameters (ClusterConfig overrides) = parameters (ClusterConfig overrides')).
Proof.
  split; intros Same.
  - rewrite !DatabaseConfig_as_makes.
    rewrite (make_depends_on_key overrides overrides' _ (Same MAX_ROWS_PER_ROWGROUP)),
      (make_depends_on_key overrides overrides' _ (Same STRIDESIZE)),
      (make_depends_on_key overrides overrides' _ (Same SHARED_FS_TYPE)),
      (make_depends_on_key overrides overrides' _ (Same CACHE_MEM_SZ)).
    repeat (try reflexivity;
            match goal with
            | |- context [make ?f ?d] => destruct (make f d)
            end).
  - rewrite !ClusterConfig_as_makes.
    rewrite (make_depends_on_key overrides overrides' _ (Same NUM_NODES)),
      (make_depends_on_key overrides overrides' _ (Same ZK_TIMEOUT)),
      (make_depends_on_key overrides overrides' _ (Same QUORUM_WRITE)),
      (make_depends_on_key overrides overrides' _ (Same INSERT_FLUSH)).
    repeat (try reflexivity;
            match goal with
            | |- context [make ?f ?d] => destruct (make f d)
            end).
Qed.

Lemma undeclared_override_keys_are_ignored_witness :
  parameters (DatabaseConfig {[ "STRIDESIZE" := "1024" ]})
  = parameters (DatabaseConfig ∅).
Proof.
  apply (proj1 (undeclared_override_keys_are_ignored {[ "STRIDESIZE" := "1024" ]} ∅)).
  intros []; reflexivity.
Defined.

(** ** Text and integers *)

Lemma read_digits_of_uint_acc (d : Decimal.uint) (acc : positive) :
  read_digits (Z.pos acc) (NilEmpty.string_of_uint d) = Z.pos (Pos.of_uint_acc d acc).
Proof.
  revert acc. induction d; intros acc; cbn [NilEmpty.string_of_uint Pos.of_uint_acc];
    [reflexivity | ..];
    cbn [read_digits];
    match goal with
    | |- context [isdigit ?c] => change (isdigit c) with true; cbn iota
    end;
    match goal with
    | |- context [digit_value ?c] =>
        let v := eval vm_compute in (digit_value c) in
        change (digit_value c) with v
    end;
    match goal with
    | |- read_digits ?z _ = Z.pos (Pos.of_uint_acc _ ?q) =>
        replace z with (Z.pos q) by lia
    end; apply IHd.
Qed.

Lemma read_digits_of_uint (d : Decimal.uint) :
  read_digits 0 (NilEmpty.string_of_uint d) = Z.of_N (Pos.of_uint d).
Proof.
  induction d; cbn [NilEmpty.string_of_uint Pos.of_uint]; [reflexivity | ..];
    cbn [read_digits];
    match goal with
    | |- context [isdigit ?c] => change (isdigit c) with true; cbn iota
    end;
    match goal with
    | |- context [digit_value ?c] =>
        let v := eval vm_compute in (digit_value c) in
        change (digit_value c) with v
    end;
    [exact IHd | ..];
    match goal with
    | |- read_digits ?z _ = Z.of_N (N.pos (Pos.of_uint_acc _ ?q)) =>
        change z with (Z.pos q)
    end; apply read_digits_of_uint_acc.
Qed.

Lemma string_of_uint_starts_with_digit (d : Decimal.uint) :
  d <> Decimal.Nil -> starts_with_digit (NilEmpty.string_of_uint d) = true.
Proof. destruct d; intros NE; [contradiction | reflexivity ..]. Qed.

(** [std::to_string] followed by [std::stoi]. *)
Lemma stoi_to_string (z : Z) :
  stoi (to_string z)
  = if in_rangeb int32_t z then Return z else Throw (out_of_range "stoi").
Proof.
  unfold to_string. destruct z as [|p|p]; [reflexivity | |].
  - cbn [Z.to_int NilZero.string_of_int].
    pose proof (Unsigned.to_uint_nonnil p) as NE.
    pose proof (read_digits_of_uint (Pos.to_uint p)) as R.
    rewrite Unsigned.of_to in R.
    pose proof (string_of_uint_starts_with_digit _ NE) as S.
    unfold NilZero.string_of_uint.
    destruct (Pos.to_uint p) eqn:E; [contradiction | ..];
      rewrite <- E in *; clear E;
      (destruct (NilEmpty.string_of_uint (Pos.to_uint p)) as [|c r] eqn:Es;
       [discriminate S|]; cbn [starts_with_digit] in S;
       unfold stoi; cbn [skip_space]; rewrite (isdigit_not_space c S);
       cbn [read_sign]; destruct (isdigit_not_sign c S) as [-> ->];
       cbn [starts_with_digit]; rewrite S, R; reflexivity).
  - cbn [Z.to_int NilZero.string_of_int].
    pose proof (Unsigned.to_uint_nonnil p) as NE.
    pose proof (read_digits_of_uint (Pos.to_uint p)) as R.
    rewrite Unsigned.of_to in R.
    pose proof (string_of_uint_starts_with_digit _ NE) as S.
    unfold NilZero.string_of_uint.
    destruct (Pos.to_uint p) eqn:E; [contradiction | ..];
      rewrite <- E in *; clear E;
      (unfold stoi; cbn [skip_space]; change (isspace "-") with false; cbn iota;
       cbn [read_sign]; change ("-" =? "-")%char with true; cbn iota;
       rewrite S, R; reflexivity).
Qed.

(** X14. The text [std::to_string] makes of an integer is read back by
    [std::stoi] as that integer when it is in the 32-bit signed range, and
    makes [std::stoi] throw [std::out_of_range] when it is not.  So the text
    projection of an integer value can be given to [set], or read as an
    integer from a text parameter, exactly for the integers of that range. *)
Theorem text_of_integer_reads_back (z : Z) :
  stoi (to_string z)
  = (if in_rangeb int32_t z then Return z else Throw (out_of_range "stoi"))
  /\ (forall T key help,
        CV.asInt (StrReadOnlyCV (CV.asStr (IntReadOnlyCV T z key help)) key help)
        = if in_rangeb int32_t z then Return z else Throw (out_of_range "stoi"))
  /\ (forall T U old key help,
        CV.set (IntUpdatableCV U old key help)
               (CV.asStr (IntUpdatableCV T z key help))
        = if in_rangeb int32_t z
          then Return (IntUpdatableCV U (cast U z) key help)
          else Throw (out_of_range "stoi")).
Proof.
  pose proof (stoi_to_string z) as S. split; [exact S|]. split.
  - intros T key help. rewrite asInt_text. exact S.
  - intros T U old key help. cbn [CV.set CV.asStr]. rewrite S.
    now destruct (in_rangeb int32_t z).
Qed.

(** What a well-typed value object of an integer subclass stores. *)
Lemma integer_object (cv : AbstractCV) (T : IntType) :
  kind_of cv = kind_IntReadOnly T \/ kind_of cv = kind_IntUpdatable T ->
  CV.well_typed cv ->
  exists m, stored_integer cv = Some m /\ in_range T m
            /\ CV.asInt cv = Return (cast int64_t m).
Proof.
  intros [K|K] W; destruct cv; simpl in K; try discriminate;
    injection K as <-; eauto.
Qed.

(** X15. [get] as an integer type that holds every value of the integer
    type a parameter is stored in returns the stored integer itself and
    leaves the registry as it was: nothing is truncated and the sign is
    kept. *)
Theorem wide_enough_get_is_exact
  {TConfigEnum : Type} `{Countable TConfigEnum}
  (self : Config.ConfigTemplate TConfigEnum) (parm : TConfigEnum)
  (cv : AbstractCV) (T U : IntType) :
  Config.mParms self !! parm = Some (Some cv) ->
  kind_of cv = kind_IntReadOnly T \/ kind_of cv = kind_IntUpdatable T ->
  CV.well_typed cv ->
  holds_all_of U T = true ->
  exists m, stored_integer cv = Some m
            /\ Config.as_ (to_int U) self parm = (Return m, self).
Proof.
  intros E K W Hw. destruct (integer_object cv T K W) as (m & S & R & A).
  exists m. split; [exact S|].
  assert (RU : in_range U m).
  { unfold holds_all_of in Hw. apply andb_true_iff in Hw as [Lo Hi].
    apply Z.leb_le in Lo, Hi. unfold in_range in *. lia. }
  rewrite (as_declared _ _ _ (to_int U) E).
  cbn [Config.convertToType]. rewrite A.
  change ((Return (cast U (cast int64_t m)), self) = (Return m, self)).
  now rewrite cast_via_int64, (cast_id U m RU).
Qed.

(** STRIDE_SIZE, stored in 16 bits and overridden to -512, reads -512 as a
    64-bit integer. *)
Lemma wide_enough_get_is_exact_witness :
  exists cfg, DatabaseConfig {[ "STRIDE_SIZE" := "-512" ]} = Return cfg
    /\ Config.as_ (to_int int64_t) cfg STRIDESIZE = (Return (-512), cfg).
Proof.
  eexists. split; [reflexivity|].
  lazymatch goal with
  | |- Config.as_ (to_int ?U) ?cfg ?p = _ =>
      destruct (wide_enough_get_is_exact cfg p
                  (IntReadOnlyCV int16_t (-512) "STRIDE_SIZE"
                     "Maximum stride size of a table") int16_t U)
        as (m & S & G);
        [reflexivity | left; reflexivity | apply in_rangeb_spec; reflexivity
        | reflexivity |]
  end.
  injection S as <-. exact G.
Defined.

(** X16. A negative integer stored in a parameter and read by [get] as an
    unsigned type at least as wide as the stored type comes back as the
    stored integer plus two to the number of bits of the requested type;
    the registry is left as it was. *)
Theorem negative_read_as_unsigned_wraps
  {TConfigEnum : Type} `{Countable TConfigEnum}
  (self : Config.ConfigTemplate TConfigEnum) (parm : TConfigEnum)
  (cv : AbstractCV) (T U : IntType) (m : Z) :
  Config.mParms self !! parm = Some (Some cv) ->
  kind_of cv = kind_IntReadOnly T \/ kind_of cv = kind_IntUpdatable T ->
  CV.well_typed cv ->
  stored_integer cv = Some m -> m < 0 ->
  is_signed U = false -> bits T <= bits U ->
  Config.as_ (to_int U) self parm = (Return (m + 2 ^ bits U), self).
Proof.
  intros E K W S Neg Un Wd.
  destruct (integer_object cv T K W) as (m' & S' & R & A).
  rewrite S in S'. injection S' as <-.
  rewrite (as_declared _ _ _ (to_int U) E).
  cbn [Config.convertToType]. rewrite A.
  change ((Return (cast U (cast int64_t m)), self) = (Return (m + 2 ^ bits U), self)).
  rewrite cast_via_int64. f_equal. f_equal.
  unfold cast. rewrite Un.
  assert (Lo : - 2 ^ bits U <= m).
  { unfold in_range, min_value, max_value in R.
    assert (2 ^ (bits T - 1) <= 2 ^ bits U)
      by (apply Z.pow_le_mono_r; pose proof (bits_pos T); lia).
    destruct (is_signed T); lia. }
  assert (0 < 2 ^ bits U) by (apply Z.pow_pos_nonneg; pose proof (bits_pos U); lia).
  symmetry. apply Z.mod_unique with (q := -1); lia.
Qed.

(** NUM_NODES, stored in 8 bits and overridden to -1, reads 255 as an
    unsigned 8-bit integer. *)
Lemma negative_read_as_unsigned_wraps_witness :
  exists cfg, ClusterConfig {[ "NUM_NODES" := "-1" ]} = Return cfg
    /\ Config.as_ (to_int uint8_t) cfg NUM_NODES = (Return 255, cfg).
Proof.
  eexists. split; [reflexivity|].
  lazymatch goal with
  | |- Config.as_ (to_int ?U) ?cfg ?p = _ =>
      apply (negative_read_as_unsigned_wraps cfg p
               (IntReadOnlyCV int8_t (-1) "NUM_NODES"
                  "Number of nodes in the cluster.") int8_t U (-1));
        [reflexivity | left; reflexivity | apply in_rangeb_spec; reflexivity
        | reflexivity | reflexivity | reflexivity | discriminate]
  end.
Defined.

(** ** The boolean text rule and blank text *)

Lemma eq_nocase_char_toupper (c d : ascii) :
  eq_nocase_char c d = true -> toupper c = toupper d.
Proof.
  unfold eq_nocase_char, same_letter. rewrite ascii_eqb_code. intros E.
  apply code_inj. rewrite !code_toupper.
  unfold islower, isupper in *.
  pose proof (code_bound c). pose proof (code_bound d).
  destruct (97 <=? code c) eqn:E1, (code c <=? 122) eqn:E2,
           (65 <=? code c) eqn:E3, (code c <=? 90) eqn:E4,
           (97 <=? code d) eqn:E5, (code d <=? 122) eqn:E6;
    cbn [andb orb] in *;
    rewrite ?Z.leb_le, ?Z.leb_gt in *;
    repeat match type of E with
           | context [?a =? ?b] => destruct (Z.eqb_spec a b); cbn [andb orb] in E
           end;
    try discriminate E; lia.
Qed.

Lemma eq_nocase_transform (s t : string) :
  eq_nocase s t = true -> transform toupper s = transform toupper t.
Proof.
  revert t. induction s as [|c s IH]; intros [|d t] E; simpl in *;
    try discriminate; [reflexivity|].
  apply andb_true_iff in E as [Ec Es].
  now rewrite (eq_nocase_char_toupper c d Ec), (IH t Es).
Qed.

(** X17. The boolean text rule does not look at the case of any letter:
    two texts that differ only in the case of letters have the same
    boolean, as the projection of a text parameter and as the override of a
    boolean parameter. *)
Theorem boolean_rule_ignores_case (s t : string) :
  eq_nocase s t = true ->
  strToBool s = strToBool t
  /\ (forall key help,
        CV.asBool (StrReadOnlyCV s key help) = CV.asBool (StrReadOnlyCV t key help))
  /\ (forall key defVal help,
        Factory.Make_BoolReadOnlyCV {| mOverrides := {[ key := s ]} |} key defVal help
        = Factory.Make_BoolReadOnlyCV {| mOverrides := {[ key := t ]} |} key defVal help).
Proof.
  intros E.
  assert (B : strToBool s = strToBool t)
    by (unfold strToBool; now rewrite (eq_nocase_transform s t E)).
  split; [exact B|]. split; [intros key help; exact B|].
  intros key defVal help.
  unfold Factory.Make_BoolReadOnlyCV, Factory.resolveVal_bool. cbn [mOverrides].
  now rewrite !lookup_singleton_eq, B.
Qed.

Lemma boolean_rule_ignores_case_witness :
  strToBool "Disabled" = strToBool "DISABLED"
  /\ CV.asBool (StrReadOnlyCV "fAlSe" "QUORUM_WRITE" "Is quorum write set")
     = CV.asBool (StrReadOnlyCV "FALSE" "QUORUM_WRITE" "Is quorum write set").
Proof.
  split.
  - exact (proj1 (boolean_rule_ignores_case "Disabled" "DISABLED" eq_refl)).
  - exact (proj1 (proj2 (boolean_rule_ignores_case "fAlSe" "FALSE" eq_refl)) _ _).
Defined.

Lemma isspace_code (c : ascii) :
  isspace c = true -> code c = 32 \/ 9 <= code c <= 13.
Proof.
  unfold isspace. rewrite orb_true_iff, andb_true_iff, Z.eqb_eq, !Z.leb_le. tauto.
Qed.

Lemma skip_space_blank (s : string) : all_chars isspace s = true -> skip_space s = "".
Proof.
  induction s as [|c r IH]; [reflexivity|]. simpl.
  intros E. apply andb_true_iff in E as [-> Er]. now apply IH.
Qed.

Lemma eq_nocase_blank (s t : string) (d : ascii) :
  all_chars isspace s = true -> isspace d = false -> eq_nocase s (String d t) = false.
Proof.
  destruct s as [|c r]; [reflexivity|]. simpl. intros E Hd.
  apply andb_true_iff in E as [Hc _].
  replace (eq_nocase_char c d) with false; [reflexivity|].
  symmetry. unfold eq_nocase_char, same_letter, islower, isupper.
  rewrite ascii_eqb_code.
  destruct (isspace_code c Hc) as [Cc|Cc];
    (destruct (Z.eqb_spec (code c) (code d)) as [Eq|_];
     [unfold isspace in Hd; rewrite <- Eq in Hd; exfalso;
      apply orb_false_iff in Hd as [H1 H2];
      apply Z.eqb_neq in H1; apply andb_false_iff in H2;
      rewrite !Z.leb_gt in H2; lia|]);
    cbn [orb];
    repeat match goal with
           | |- context [?a <=? ?b] => destruct (Z.leb_spec a b); cbn [andb orb]
           end; try reflexivity; lia.
Qed.

(** X18. Text made of white space only, the empty text included, is no
    integer and is no "false": [set] with it on an updatable integer and an
    integer override made of it throw [std::invalid_argument], a boolean
    override made of it stores true, and a text override keeps it as it
    is. *)
Theorem blank_text (s : string) :
  all_chars isspace s = true ->
  stoi s = Throw (invalid_argument "stoi")
  /\ strToBool s = true
  /\ (forall T old key help,
        CV.set (IntUpdatableCV T old key help) s = Throw (invalid_argument "stoi"))
  /\ (forall T key defVal help,
        Factory.Make_IntReadOnlyCV {| mOverrides := {[ key := s ]} |} T key defVal help
        = Throw (invalid_argument "stoi")
        /\ Factory.Make_IntUpdatableCV {| mOverrides := {[ key := s ]} |} T key defVal help
           = Throw (invalid_argument "stoi"))
  /\ (forall key defVal help,
        Factory.Make_BoolReadOnlyCV {| mOverrides := {[ key := s ]} |} key defVal help
        = Return (BoolReadOnlyCV true key help))
  /\ (forall key defVal help,
        Factory.Make_StrReadOnlyCV {| mOverrides := {[ key := s ]} |} key defVal help
        = Return (StrReadOnlyCV s key help)).
Proof.
  intros B.
  assert (S : stoi s = Throw (invalid_argument "stoi"))
    by (unfold stoi; now rewrite (skip_space_blank s B)).
  assert (T : strToBool s = true).
  { rewrite strToBool_spec.
    now rewrite !(eq_nocase_blank s _ _ B) by reflexivity. }
  split; [exact S|]. split; [exact T|]. split; [|split; [|split]].
  - intros U old key help. cbn [CV.set]. now rewrite S.
  - intros U key defVal help.
    unfold Factory.Make_IntReadOnlyCV, Factory.Make_IntUpdatableCV,
      Factory.resolveVal_int. cbn [mOverrides].
    rewrite !lookup_singleton_eq, S. split; reflexivity.
  - intros key defVal help.
    unfold Factory.Make_BoolReadOnlyCV, Factory.resolveVal_bool. cbn [mOverrides].
    now rewrite lookup_singleton_eq, T.
  - intros key defVal help.
    unfold Factory.Make_StrReadOnlyCV, Factory.resolveVal_str. cbn [mOverrides].
    now rewrite lookup_singleton_eq.
Qed.

Lemma blank_text_witness :
  stoi "" = Throw (invalid_argument "stoi") /\ strToBool "" = true
  /\ CV.set (IntUpdatableCV int64_t 0 "CACHE_MEM_SZ" "Memory size of cache") "  "
     = Throw (invalid_argument "stoi").
Proof.
  destruct (blank_text "" eq_refl) as (S & T & _).
  destruct (blank_text "  " eq_refl) as (_ & _ & U & _).
  split; [exact S|]. split; [exact T|]. apply U.
Defined.

(** ** Agreement of the projections *)

(** X19. On an integer or boolean parameter whose stored integer is a
    value of its type, the boolean projection is true exactly when the
    integer projection is not zero. *)
Theorem boolean_and_integer_projections_agree (cv : AbstractCV) (z : Z) :
  kind_of cv <> kind_StrReadOnly ->
  CV.well_typed cv ->
  CV.asInt cv = Return z ->
  CV.asBool cv = negb (z =? 0).
Proof.
  assert (Int : forall T m, in_range T m -> (cast int64_t m =? 0) = (m =? 0)).
  { intros T m R.
    assert (B : - 2 ^ 63 <= m < 2 ^ 64)
      by (unfold in_range, min_value, max_value in R; destruct T; simpl in R; lia).
    destruct (cast_congruent int64_t m) as [q Eq].
    pose proof (cast_in_range int64_t m) as Rc.
    unfold in_range, min_value, max_value in Rc. simpl in Rc.
    change (2 ^ bits int64_t) with (2 ^ 64) in Eq.
    destruct (Z.eqb_spec (cast int64_t m) 0) as [E0|N0];
      destruct (Z.eqb_spec m 0) as [E1|N1]; try reflexivity; exfalso; lia. }
  intros K W A. destruct cv; cbn [CV.asInt CV.asBool CV.well_typed] in *.
  - injection A as <-. now rewrite asBool_int, (Int T mVal W).
  - injection A as <-. now rewrite asBool_int, (Int T mVal W).
  - injection A as <-. now destruct mVal.
  - now contradiction K.
Qed.

Lemma boolean_and_integer_projections_agree_witness :
  CV.asBool (IntReadOnlyCV int8_t 3 "NUM_NODES" "Number of nodes in the cluster.")
  = negb (3 =? 0).
Proof.
  apply (boolean_and_integer_projections_agree
           (IntReadOnlyCV int8_t 3 "NUM_NODES" "Number of nodes in the cluster.") 3);
    [discriminate | apply in_rangeb_spec; reflexivity | reflexivity].
Defined.
